(** * Geometry and layout core of programmatic-graphics

    A shallow embedding of the pure geometry functions of
    [triangle_utils.py], [quadrilateral_utils.py], [circle_utils.py] and
    [dotcross_utils.py], followed by the properties established about them.

    Number model.  Python and numpy floats are idealised as real numbers
    ([R]): rounding, overflow and underflow are not modelled.  What is
    modelled of the floating-point world is the one event the code guards
    against, a numpy division by zero: it yields [nan] or [inf], which no
    real number represents, so the embedding stops there with the outcome
    [NotFinite].  A division of Python scalars by zero raises instead.
    The literal tables of [dotcross_utils.py] and its lone-pair placement,
    which use rational arithmetic only, are modelled over [Q] and compute. *)

From stdpp Require Import gmap strings.
From Stdlib Require Import Reals Lra Lia ZArith QArith Qround.

(** ** Python and numpy primitives *)

Module Py.

Inductive exn : Type :=
  | ValueError (msg : string)
  | ZeroDivisionError
  | IndexError
  | KeyError (key : string).

(** What running a function gives: a value, a raised exception, or a
    floating-point result that is [nan] or infinite. *)
Inductive outcome (A : Type) : Type :=
  | Ok (a : A)
  | Raise (e : exn)
  | NotFinite.
Arguments Ok {A} a.
Arguments Raise {A} e.
Arguments NotFinite {A}.

#[export] Instance outcome_ret : MRet outcome := @Ok.
#[export] Instance outcome_bind : MBind outcome :=
  fun A B (f : A -> outcome B) (m : outcome A) =>
    match m with
    | Ok a => f a
    | Raise e => Raise e
    | NotFinite => NotFinite
    end.

Definition is_error {A} (m : outcome A) : Prop := exists e, m = Raise e.

Local Open Scope R_scope.

(** Comparisons of floats as Python evaluates them. *)
Definition gtb (x y : R) : bool := if Rgt_dec x y then true else false.
Definition eqb (x y : R) : bool := if Req_dec_T x y then true else false.
Definition ltb (x y : R) : bool := if Rlt_dec x y then true else false.

(** [x / y] on Python scalars. *)
Definition py_div (x y : R) : outcome R :=
  if eqb y 0 then Raise ZeroDivisionError else Ok (x / y).

(** [x / y] on numpy scalars: no exception, a non-finite value instead. *)
Definition np_div (x y : R) : outcome R :=
  if eqb y 0 then NotFinite else Ok (x / y).

(** A numpy array of shape (2,). *)
Definition vec : Type := R * R.

Definition vadd (u v : vec) : vec := (u.1 + v.1, u.2 + v.2).
Definition vsub (u v : vec) : vec := (u.1 - v.1, u.2 - v.2).
Definition vneg (u : vec) : vec := (- u.1, - u.2).
Definition vscale (k : R) (u : vec) : vec := (k * u.1, k * u.2).
Definition vdiv_lit (u : vec) (k : R) : vec := (u.1 / k, u.2 / k).

(** [u / d] for an array [u] and a numpy scalar [d]. *)
Definition vdiv (u : vec) (d : R) : outcome vec :=
  x ← np_div u.1 d; y ← np_div u.2 d; Ok (x, y).

(** [np.dot], [np.linalg.norm], [np.clip], [np.radians], [np.degrees]. *)
Definition dot (u v : vec) : R := u.1 * v.1 + u.2 * v.2.
Definition norm (u : vec) : R := sqrt (u.1 * u.1 + u.2 * u.2).
Definition clip (x lo hi : R) : R := Rmin (Rmax x lo) hi.
Definition radians (deg : R) : R := deg * PI / 180.
Definition degrees (rad : R) : R := rad * 180 / PI.

(** [arr[i]] on a list or on the first axis of an array: negative indices
    count from the end, anything else out of range raises. *)
Definition arr_get {A : Type} (arr : list A) (i : Z) : outcome A :=
  let n := Z.of_nat (length arr) in
  let k := if (i <? 0)%Z then (i + n)%Z else i in
  if ((0 <=? k)%Z && (k <? n)%Z)%bool then
    match arr !! Z.to_nat k with
    | Some x => Ok x
    | None => Raise IndexError
    end
  else Raise IndexError.

(** A rotation matrix applied to a point, [rotation_matrix @ p] (equally
    [np.dot(p, rotation_matrix.T)] on a row). *)
Definition rotate (theta : R) (p : vec) : vec :=
  (cos theta * p.1 - sin theta * p.2, sin theta * p.1 + cos theta * p.2).

(** What the rendering sink receives: [ax.text(x, y, text, ...)]. *)
Inductive draw_cmd : Type :=
  | Text (pos : vec) (text : string).

(** [np.mean(vertices, axis=0)] *)
Definition np_mean (vertices : list vec) : outcome vec :=
  vdiv (foldl vadd (0, 0) vertices) (INR (length vertices)).

(** [x % n] on Python integers. *)
Definition py_mod (x n : Z) : outcome Z :=
  if (n =? 0)%Z then Raise ZeroDivisionError else Ok (x mod n)%Z.

(** What [ax.plot(xs, ys)] receives: a polyline through these points. *)
Inductive plot_cmd : Type :=
  | Plot (points : list vec).

End Py.

Import Py.

(** ** triangle_utils.py *)

Module triangle_utils.
Local Open Scope R_scope.

(** [get_triangle_vertices_from_sss(a, b, c, base_center, base_angle)] *)
Definition get_triangle_vertices_from_sss
    (a b c : R) (base_center : vec) (base_angle : R) : outcome (list vec) :=
  if negb (gtb (a + b) c && gtb (b + c) a && gtb (a + c) b) then
    Raise (ValueError "Invalid triangle: side lengths violate triangle inequality")
  else
    let half_c := c / 2 in
    let A : vec := (- half_c, 0) in
    let B : vec := (half_c, 0) in
    cos_A ← py_div (b ^ 2 + c ^ 2 - a ^ 2) (2 * b * c);
    let cos_A := clip cos_A (-1) 1 in
    let angle_A := acos cos_A in
    let C := vadd A (vscale b (cos angle_A, sin angle_A)) in
    let '(A, B, C) :=
      if negb (eqb base_angle 0) then
        let theta := radians base_angle in
        (rotate theta A, rotate theta B, rotate theta C)
      else (A, B, C) in
    let center_offset := base_center in
    Ok [vadd A center_offset; vadd B center_offset; vadd C center_offset].

(** [get_side_midpoint(vertices, side_index)] *)
Definition get_side_midpoint (vertices : list vec) (side_index : Z)
    : outcome vec :=
  let i := side_index in
  let j := ((side_index + 1) mod 3)%Z in
  vi ← arr_get vertices i;
  vj ← arr_get vertices j;
  Ok (vdiv_lit (vadd vi vj) 2).

(** [get_side_length(vertices, side_index)] *)
Definition get_side_length (vertices : list vec) (side_index : Z)
    : outcome R :=
  let i := side_index in
  let j := ((side_index + 1) mod 3)%Z in
  vj ← arr_get vertices j;
  vi ← arr_get vertices i;
  Ok (norm (vsub vj vi)).

(** [get_outward_direction(vertices, side_index)] *)
Definition get_outward_direction (vertices : list vec) (side_index : Z)
    : outcome vec :=
  let i := side_index in
  let j := ((side_index + 1) mod 3)%Z in
  let k := ((side_index + 2) mod 3)%Z in
  vj ← arr_get vertices j;
  vi ← arr_get vertices i;
  let side_vec := vsub vj vi in
  let perp : vec := (- side_vec.2, side_vec.1) in
  perp ← vdiv perp (norm perp);
  let midpoint := vdiv_lit (vadd vi vj) 2 in
  vk ← arr_get vertices k;
  let to_opposite := vsub vk midpoint in
  let perp := if gtb (dot perp to_opposite) 0 then vneg perp else perp in
  Ok perp.

(** [get_vertex_angle(vertices, vertex_index)] *)
Definition get_vertex_angle (vertices : list vec) (vertex_index : Z)
    : outcome R :=
  let i := vertex_index in
  let prev_i := ((i - 1) mod 3)%Z in
  let next_i := ((i + 1) mod 3)%Z in
  vp ← arr_get vertices prev_i;
  vi ← arr_get vertices i;
  let v1 := vsub vp vi in
  vn ← arr_get vertices next_i;
  let v2 := vsub vn vi in
  cos_angle ← np_div (dot v1 v2) (norm v1 * norm v2);
  let cos_angle := clip cos_angle (-1) 1 in
  Ok (degrees (acos cos_angle)).

(** The table [DIRECTIONS]; ['auto'] is bound to [None]. *)
Definition DIRECTIONS : gmap string (option vec) :=
  list_to_map
    [ ("above", Some (0, 1)); ("below", Some (0, -1));
      ("left", Some (-1, 0)); ("right", Some (1, 0));
      ("above left", Some (-0.707, 0.707));
      ("above right", Some (0.707, 0.707));
      ("below left", Some (-0.707, -0.707));
      ("below right", Some (0.707, -0.707));
      ("center", Some (0, 0)); ("auto", None) ].

(** [draw_side_label(ax, vertices, side_index, label_text, ..., position,
    direction, distance)] with [rotate_with_side] left at [False]: the text
    command sent to [ax] (the flag only changes the rotation of the text). *)
Definition draw_side_label (vertices : list vec) (side_index : Z)
    (label_text : string) (position : R) (direction : string) (distance : R)
    : outcome (list draw_cmd) :=
  let i := side_index in
  let j := ((side_index + 1) mod 3)%Z in
  vi ← arr_get vertices i;
  vj ← arr_get vertices j;
  let point := vadd vi (vscale position (vsub vj vi)) in
  offset_dir ←
    (if String.eqb direction "auto"
     then get_outward_direction vertices side_index
     else match DIRECTIONS !! direction with
          | Some (Some d) => Ok d
          | Some None => get_outward_direction vertices side_index
          | None => Ok (0, 0)
          end);
  let label_pos := vadd point (vscale distance offset_dir) in
  Ok [Text label_pos label_text].

(** [get_angle_bisector_direction(vertices, vertex_index)] *)
Definition get_angle_bisector_direction (vertices : list vec)
    (vertex_index : Z) : outcome vec :=
  let i := vertex_index in
  let prev_i := ((i - 1) mod 3)%Z in
  let next_i := ((i + 1) mod 3)%Z in
  vp ← arr_get vertices prev_i;
  vi ← arr_get vertices i;
  let v1 := vsub vp vi in
  v1 ← vdiv v1 (norm v1);
  vn ← arr_get vertices next_i;
  let v2 := vsub vn vi in
  v2 ← vdiv v2 (norm v2);
  let bisector := vadd v1 v2 in
  if ltb (norm bisector) 1e-10 then Ok (- v1.2, v1.1)
  else vdiv bisector (norm bisector).

(** [draw_right_angle_marker(ax, vertices, vertex_index, ..., size)] *)
Definition draw_right_angle_marker (vertices : list vec) (vertex_index : Z)
    (size : R) : outcome (list plot_cmd) :=
  let i := vertex_index in
  let prev_i := ((i - 1) mod 3)%Z in
  let next_i := ((i + 1) mod 3)%Z in
  vertex ← arr_get vertices i;
  vp ← arr_get vertices prev_i;
  let v1 := vsub vp vertex in
  v1 ← vdiv v1 (norm v1);
  vn ← arr_get vertices next_i;
  let v2 := vsub vn vertex in
  v2 ← vdiv v2 (norm v2);
  let p1 := vadd vertex (vscale size v1) in
  let p2 := vadd (vadd vertex (vscale size v1)) (vscale size v2) in
  let p3 := vadd vertex (vscale size v2) in
  Ok [Plot [p1; p2]; Plot [p2; p3]].

(** [draw_angle_label(ax, vertices, vertex_index, label_text, ..., distance,
    direction)] *)
Definition draw_angle_label (vertices : list vec) (vertex_index : Z)
    (label_text : string) (distance : R) (direction : string)
    : outcome (list draw_cmd) :=
  vertex ← arr_get vertices vertex_index;
  offset_dir ←
    (if String.eqb direction "auto"
     then get_angle_bisector_direction vertices vertex_index
     else match DIRECTIONS !! direction with
          | Some (Some d) => Ok d
          | Some None => get_angle_bisector_direction vertices vertex_index
          | None => get_angle_bisector_direction vertices vertex_index
          end);
  let label_pos := vadd vertex (vscale distance offset_dir) in
  Ok [Text label_pos label_text].

(** The direction away from the centroid that [draw_vertex_label] computes. *)
Definition away_from_centroid (vertices : list vec) (vertex : vec)
    : outcome vec :=
  centroid ← np_mean vertices;
  let offset_dir := vsub vertex centroid in
  vdiv offset_dir (norm offset_dir).

(** [draw_vertex_label(ax, vertices, vertex_index, label_text, ..., distance,
    direction)] *)
Definition draw_vertex_label (vertices : list vec) (vertex_index : Z)
    (label_text : string) (distance : R) (direction : string)
    : outcome (list draw_cmd) :=
  vertex ← arr_get vertices vertex_index;
  offset_dir ←
    (if String.eqb direction "auto" then away_from_centroid vertices vertex
     else match DIRECTIONS !! direction with
          | Some (Some d) => Ok d
          | Some None => away_from_centroid vertices vertex
          | None => Ok (0, 1)
          end);
  let label_pos := vadd vertex (vscale distance offset_dir) in
  Ok [Text label_pos label_text].

(** [draw_tick_marks(ax, vertices, side_index, num_ticks, ..., tick_length)] *)
Definition draw_tick_marks (vertices : list vec) (side_index : Z)
    (num_ticks : Z) (tick_length : R) : outcome (list plot_cmd) :=
  midpoint ← get_side_midpoint vertices side_index;
  outward ← get_outward_direction vertices side_index;
  let i := side_index in
  let j := ((side_index + 1) mod 3)%Z in
  vj ← arr_get vertices j;
  vi ← arr_get vertices i;
  let side_dir := vsub vj vi in
  side_dir ← vdiv side_dir (norm side_dir);
  let tick_spacing := tick_length * 0.8 in
  let start_offset := - (IZR (num_ticks - 1) / 2) * tick_spacing in
  Ok (map (fun t : nat =>
             let offset := start_offset + INR t * tick_spacing in
             let tick_center := vadd midpoint (vscale offset side_dir) in
             let p1 := vsub tick_center (vscale (tick_length / 2) outward) in
             let p2 := vadd tick_center (vscale (tick_length / 2) outward) in
             Plot [p1; p2])
          (seq 0 (Z.to_nat num_ticks))).

(** [get_equilateral_triangle(side_length, center)] *)
Definition get_equilateral_triangle (side_length : R) (center : vec)
    : outcome (list vec) :=
  get_triangle_vertices_from_sss side_length side_length side_length center 0.

(** [get_isoceles_triangle(base, leg, center)] *)
Definition get_isoceles_triangle (base leg : R) (center : vec)
    : outcome (list vec) :=
  get_triangle_vertices_from_sss leg leg base center 0.

(** [get_right_triangle(base, height, center)] *)
Definition get_right_triangle (base height : R) (center : vec)
    : outcome (list vec) :=
  let hypotenuse := sqrt (base ^ 2 + height ^ 2) in
  get_triangle_vertices_from_sss height hypotenuse base center 0.

(** [get_30_60_90_triangle(short_leg, center)] *)
Definition get_30_60_90_triangle (short_leg : R) (center : vec)
    : outcome (list vec) :=
  let long_leg := short_leg * sqrt 3 in
  let hypotenuse := 2 * short_leg in
  get_triangle_vertices_from_sss long_leg hypotenuse short_leg center 0.

(** [get_45_45_90_triangle(leg, center)] *)
Definition get_45_45_90_triangle (leg : R) (center : vec)
    : outcome (list vec) :=
  let hypotenuse := leg * sqrt 2 in
  get_triangle_vertices_from_sss leg hypotenuse leg center 0.

End triangle_utils.

(** ** quadrilateral_utils.py *)

Module quadrilateral_utils.
Local Open Scope R_scope.

Definition DIRECTIONS : gmap string vec :=
  list_to_map
    [ ("above", (0, 1)); ("below", (0, -1));
      ("left", (-1, 0)); ("right", (1, 0));
      ("above left", (-0.707, 0.707)); ("above right", (0.707, 0.707));
      ("below left", (-0.707, -0.707)); ("below right", (0.707, -0.707)) ].

(** [np.sum(vertices, axis=0)] *)
Definition vsum (vertices : list vec) : vec := foldl vadd (0, 0) vertices.

(** [get_centroid(vertices)]: [np.mean(vertices, axis=0)] *)
Definition get_centroid (vertices : list vec) : outcome vec :=
  vdiv (vsum vertices) (INR (length vertices)).

(** [rotate_points(points, angle_deg, center)] *)
Definition rotate_points (points : list vec) (angle_deg : R) (center : vec)
    : list vec :=
  let angle_rad := radians angle_deg in
  map (fun p => vadd (rotate angle_rad (vsub p center)) center) points.

(** [get_square(side_length, center, rotation)] *)
Definition get_square (side_length : R) (center : vec) (rotation : R)
    : list vec :=
  let half := side_length / 2 in
  let vertices : list vec :=
    [(- half, - half); (half, - half); (half, half); (- half, half)] in
  let vertices :=
    if negb (eqb rotation 0) then rotate_points vertices rotation (0, 0)
    else vertices in
  map (fun p => vadd p center) vertices.

(** [get_rectangle(width, height, center, rotation)] *)
Definition get_rectangle (width height : R) (center : vec) (rotation : R)
    : list vec :=
  let hw := width / 2 in
  let hh := height / 2 in
  let vertices : list vec :=
    [(- hw, - hh); (hw, - hh); (hw, hh); (- hw, hh)] in
  let vertices :=
    if negb (eqb rotation 0) then rotate_points vertices rotation (0, 0)
    else vertices in
  map (fun p => vadd p center) vertices.

(** [get_parallelogram(base, side, angle_deg, center, rotation)] *)
Definition get_parallelogram (base side angle_deg : R) (center : vec)
    (rotation : R) : outcome (list vec) :=
  let angle_rad := radians angle_deg in
  let offset_x := side * cos angle_rad in
  let offset_y := side * sin angle_rad in
  let vertices : list vec :=
    [(0, 0); (base, 0); (base + offset_x, offset_y); (offset_x, offset_y)] in
  centroid ← get_centroid vertices;
  let vertices := map (fun p => vadd (vsub p centroid) center) vertices in
  Ok (if negb (eqb rotation 0) then rotate_points vertices rotation center
      else vertices).

(** [get_rhombus(side, angle_deg, center, rotation)] *)
Definition get_rhombus (side angle_deg : R) (center : vec) (rotation : R)
    : outcome (list vec) :=
  get_parallelogram side side angle_deg center rotation.

(** [get_trapezium(parallel_top, parallel_bottom, height, offset, center,
    rotation)] *)
Definition get_trapezium (parallel_top parallel_bottom height offset : R)
    (center : vec) (rotation : R) : outcome (list vec) :=
  let hb := parallel_bottom / 2 in
  let ht := parallel_top / 2 in
  let vertices : list vec :=
    [(- hb, 0); (hb, 0); (offset + ht, height); (offset - ht, height)] in
  centroid ← get_centroid vertices;
  let vertices := map (fun p => vadd (vsub p centroid) center) vertices in
  Ok (if negb (eqb rotation 0) then rotate_points vertices rotation center
      else vertices).

(** [get_kite(d1, d2, split_ratio, center, rotation)] *)
Definition get_kite (d1 d2 split_ratio : R) (center : vec) (rotation : R)
    : list vec :=
  let h1 := d1 / 2 in
  let v_bottom := d2 * split_ratio in
  let v_top := d2 * (1 - split_ratio) in
  let vertices : list vec :=
    [(- h1, 0); (0, - v_bottom); (h1, 0); (0, v_top)] in
  let vertices := map (fun p => vadd p center) vertices in
  if negb (eqb rotation 0) then rotate_points vertices rotation center
  else vertices.

(** [get_isosceles_trapezium(parallel_top, parallel_bottom, height, center,
    rotation)] *)
Definition get_isosceles_trapezium (parallel_top parallel_bottom height : R)
    (center : vec) (rotation : R) : outcome (list vec) :=
  get_trapezium parallel_top parallel_bottom height 0 center rotation.

(** The direction [draw_vertex_label] scales by [distance]. *)
Definition vertex_label_direction (vertex : vec) (direction : string)
    (centroid : option vec) : outcome vec :=
  match String.eqb direction "auto", centroid with
  | true, Some centroid =>
      let dir_vec := vsub vertex centroid in
      vdiv dir_vec (norm dir_vec + 1e-10)
  | _, _ =>
      match DIRECTIONS !! direction with
      | Some d => Ok d
      | None => Ok (0, 1)
      end
  end.

(** [draw_vertex_label(ax, vertex, label, direction, distance, ..., centroid)]:
    the text commands sent to [ax]. *)
Definition draw_vertex_label (vertex : vec) (label : string)
    (direction : string) (distance : R) (centroid : option vec)
    : outcome (list draw_cmd) :=
  if String.eqb label "" then Ok []
  else
    dir_vec ← vertex_label_direction vertex direction centroid;
    let label_pos := vadd vertex (vscale distance dir_vec) in
    Ok [Text label_pos label].

(** [get_vertex_angle(vertices, vertex_idx)] *)
Definition get_vertex_angle (vertices : list vec) (vertex_idx : Z)
    : outcome R :=
  let n := Z.of_nat (length vertices) in
  prev_idx ← py_mod (vertex_idx - 1) n;
  next_idx ← py_mod (vertex_idx + 1) n;
  v ← arr_get vertices vertex_idx;
  v_prev ← arr_get vertices prev_idx;
  v_next ← arr_get vertices next_idx;
  let vec1 := vsub v_prev v in
  let vec2 := vsub v_next v in
  cos_angle ← np_div (dot vec1 vec2) (norm vec1 * norm vec2 + 1e-10);
  let cos_angle := clip cos_angle (-1) 1 in
  Ok (degrees (acos cos_angle)).

(** [get_side_length(vertices, side_idx)] *)
Definition get_side_length (vertices : list vec) (side_idx : Z) : outcome R :=
  let n := Z.of_nat (length vertices) in
  p1 ← arr_get vertices side_idx;
  next_idx ← py_mod (side_idx + 1) n;
  p2 ← arr_get vertices next_idx;
  Ok (norm (vsub p2 p1)).

(** [draw_side_label(ax, p1, p2, label, position, direction, distance, ...,
    centroid)] *)
Definition draw_side_label (p1 p2 : vec) (label : string) (position : R)
    (direction : string) (distance : R) (centroid : option vec)
    : outcome (list draw_cmd) :=
  if String.eqb label "" then Ok []
  else
    let mid := vadd (vscale (1 - position) p1) (vscale position p2) in
    let side_vec := vsub p2 p1 in
    let perp : vec := (- side_vec.2, side_vec.1) in
    perp ← vdiv perp (norm perp + 1e-10);
    let perp :=
      match String.eqb direction "auto", centroid with
      | true, Some centroid =>
          let to_centroid := vsub centroid mid in
          if gtb (dot perp to_centroid) 0 then vneg perp else perp
      | _, _ =>
          if String.eqb direction "below" || String.eqb direction "left" then
            if gtb perp.2 0 || (eqb perp.2 0 && gtb perp.1 0)
            then vneg perp else perp
          else if String.eqb direction "above" || String.eqb direction "right"
          then
            if ltb perp.2 0 || (eqb perp.2 0 && ltb perp.1 0)
            then vneg perp else perp
          else perp
      end in
    let label_pos := vadd mid (vscale distance perp) in
    Ok [Text label_pos label].

(** [draw_tick_marks(ax, p1, p2, num_ticks, tick_length, ...)] *)
Definition draw_tick_marks (p1 p2 : vec) (num_ticks : Z) (tick_length : R)
    : outcome (list plot_cmd) :=
  if (num_ticks <=? 0)%Z then Ok []
  else
    let mid := vdiv_lit (vadd p1 p2) 2 in
    let side_vec := vsub p2 p1 in
    let side_len := norm side_vec in
    let perp : vec := (- side_vec.2, side_vec.1) in
    perp ← vdiv perp (side_len + 1e-10);
    let perp := vscale tick_length perp in
    let spacing := 0.15 in
    mapM (fun i : nat =>
            let offset := (INR i - IZR (num_ticks - 1) / 2) * spacing in
            unit_vec ← vdiv side_vec side_len;
            let tick_center := vadd mid (vscale offset unit_vec) in
            Ok (Plot [ (tick_center.1 - perp.1 / 2, tick_center.2 - perp.2 / 2);
                       (tick_center.1 + perp.1 / 2, tick_center.2 + perp.2 / 2) ]))
         (seq 0 (Z.to_nat num_ticks)).

End quadrilateral_utils.

(** ** circle_utils.py *)

Module circle_utils.
Local Open Scope R_scope.

(** The [direction] argument of [draw_label]: a keyword or an angle. *)
Inductive direction_arg : Type :=
  | DStr (s : string)
  | DNum (angle : R).

Definition is_str (d : direction_arg) (s : string) : bool :=
  match d with
  | DStr t => String.eqb t s
  | DNum _ => false
  end.

(** The offset direction [draw_label] scales by [distance]. *)
Definition label_offset_dir (position : vec) (direction : direction_arg)
    (reference_point : option vec) : outcome vec :=
  match is_str direction "auto", reference_point with
  | true, Some ref =>
      let offset_dir := vsub position ref in
      if gtb (norm offset_dir) 1e-10 then vdiv offset_dir (norm offset_dir)
      else Ok (0, 1)
  | _, _ =>
      if is_str direction "above" then Ok (0, 1)
      else if is_str direction "below" then Ok (0, -1)
      else if is_str direction "left" then Ok (-1, 0)
      else if is_str direction "right" then Ok (1, 0)
      else
        match direction with
        | DNum angle =>
            let angle_rad := radians angle in
            Ok (cos angle_rad, sin angle_rad)
        | DStr _ => Ok (0, 1)
        end
  end.

(** [draw_label(ax, position, text, ..., direction, distance,
    reference_point)]: the text commands sent to [ax]. *)
Definition draw_label (position : vec) (text : string)
    (direction : direction_arg) (distance : R) (reference_point : option vec)
    : outcome (list draw_cmd) :=
  offset_dir ← label_offset_dir position direction reference_point;
  let label_pos := vadd position (vscale distance offset_dir) in
  Ok [Text label_pos text].

(** [get_sector_area(radius, angle1_degrees, angle2_degrees)] *)
Definition get_sector_area (radius angle1_degrees angle2_degrees : R) : R :=
  let angle_diff := Rabs (angle2_degrees - angle1_degrees) in
  let angle_diff :=
    if gtb angle_diff 180 then 360 - angle_diff else angle_diff in
  0.5 * radius ^ 2 * radians angle_diff.

(** [point_on_circle(center, radius, angle_degrees)] *)
Definition point_on_circle (center : vec) (radius angle_degrees : R) : vec :=
  let angle_rad := radians angle_degrees in
  let x := center.1 + radius * cos angle_rad in
  let y := center.2 + radius * sin angle_rad in
  (x, y).

(** [draw_radius(ax, center, radius, angle_degrees, ...)] *)
Definition draw_radius (center : vec) (radius angle_degrees : R) : plot_cmd :=
  let end_point := point_on_circle center radius angle_degrees in
  Plot [center; end_point].

(** [draw_diameter(ax, center, radius, angle_degrees, ...)] *)
Definition draw_diameter (center : vec) (radius angle_degrees : R)
    : plot_cmd :=
  let point1 := point_on_circle center radius angle_degrees in
  let point2 := point_on_circle center radius (angle_degrees + 180) in
  Plot [point1; point2].

(** [draw_chord(ax, center, radius, angle1_degrees, angle2_degrees, ...)] *)
Definition draw_chord (center : vec) (radius angle1_degrees angle2_degrees : R)
    : plot_cmd :=
  let point1 := point_on_circle center radius angle1_degrees in
  let point2 := point_on_circle center radius angle2_degrees in
  Plot [point1; point2].

(** [draw_tangent(ax, center, radius, angle_degrees, length, ...)] *)
Definition draw_tangent (center : vec) (radius angle_degrees length : R)
    : plot_cmd :=
  let touch_point := point_on_circle center radius angle_degrees in
  let tangent_angle := radians (angle_degrees + 90) in
  let tangent_dir : vec := (cos tangent_angle, sin tangent_angle) in
  let point1 := vsub touch_point (vscale (length / 2) tangent_dir) in
  let point2 := vadd touch_point (vscale (length / 2) tangent_dir) in
  Plot [point1; point2].

(** [draw_line_label(ax, point1, point2, text, ..., position, direction,
    distance)] *)
Definition draw_line_label (point1 point2 : vec) (text : string)
    (position : R) (direction : direction_arg) (distance : R)
    : outcome (list draw_cmd) :=
  let label_base := vadd point1 (vscale position (vsub point2 point1)) in
  let line_vec := vsub point2 point1 in
  let perp : vec := (- line_vec.2, line_vec.1) in
  perp ← (if gtb (norm perp) 1e-10 then vdiv perp (norm perp) else Ok perp);
  let offset_dir : vec :=
    if is_str direction "auto" then perp
    else if is_str direction "above" then (0, 1)
    else if is_str direction "below" then (0, -1)
    else if is_str direction "left" then (-1, 0)
    else if is_str direction "right" then (1, 0)
    else perp in
  let label_pos := vadd label_base (vscale distance offset_dir) in
  Ok [Text label_pos text].

(** [draw_arc_label(ax, center, radius, start_angle, end_angle, text, ...,
    distance)] *)
Definition draw_arc_label (center : vec) (radius start_angle end_angle : R)
    (text : string) (distance : R) : outcome (list draw_cmd) :=
  let end_angle :=
    if ltb end_angle start_angle then end_angle + 360 else end_angle in
  let mid_angle := (start_angle + end_angle) / 2 in
  let arc_point := point_on_circle center radius mid_angle in
  let outward_dir := vsub arc_point center in
  outward_dir ←
    (if gtb (norm outward_dir) 1e-10
     then vdiv outward_dir (norm outward_dir) else Ok outward_dir);
  let label_pos := vadd arc_point (vscale distance outward_dir) in
  Ok [Text label_pos text].

(** [get_chord_length(radius, angle1_degrees, angle2_degrees)] *)
Definition get_chord_length (radius angle1_degrees angle2_degrees : R) : R :=
  let angle_diff := Rabs (angle2_degrees - angle1_degrees) in
  let angle_diff :=
    if gtb angle_diff 180 then 360 - angle_diff else angle_diff in
  2 * radius * sin (radians (angle_diff / 2)).

(** [get_arc_length(radius, angle1_degrees, angle2_degrees)] *)
Definition get_arc_length (radius angle1_degrees angle2_degrees : R) : R :=
  let angle_diff := Rabs (angle2_degrees - angle1_degrees) in
  let angle_diff :=
    if gtb angle_diff 180 then 360 - angle_diff else angle_diff in
  radius * radians angle_diff.

(** [get_segment_area(radius, angle1_degrees, angle2_degrees)] *)
Definition get_segment_area (radius angle1_degrees angle2_degrees : R) : R :=
  let angle_diff := Rabs (angle2_degrees - angle1_degrees) in
  let angle_diff :=
    if gtb angle_diff 180 then 360 - angle_diff else angle_diff in
  let theta := radians angle_diff in
  0.5 * radius ^ 2 * (theta - sin theta).

End circle_utils.

(** ** dotcross_utils.py *)

Module dotcross_utils.
Local Open Scope Q_scope.

(** An entry of an ['atoms'] list; the last three keys are present on the
    atoms of ionic presets only. *)
Record atom : Type := Atom {
  element : string;
  position : Q * Q;
  charge : option string;
  show_electrons : option Z;
  transferred : option Z
}.

(** A molecule dictionary; ['bonds'] and ['lone_pairs'] are absent from the
    ionic presets. *)
Record molecule : Type := Molecule {
  type : string;
  description : string;
  atoms : list atom;
  bonds : option (list (Z * Z * Z));
  lone_pairs : option (gmap Z (list Q))
}.

Definition covalent_atom (el : string) (pos : Q * Q) : atom :=
  Atom el pos None None None.
Definition ion (el : string) (pos : Q * Q) (ch : string) (shown : Z)
    (moved : option Z) : atom :=
  Atom el pos (Some ch) (Some shown) moved.

Definition water : molecule :=
  Molecule "covalent" "Water - bent molecule with 2 lone pairs on oxygen"
    [ covalent_atom "O" (0, 0);
      covalent_atom "H" (-0.75, -0.6);
      covalent_atom "H" (0.75, -0.6) ]
    (Some [(0, 1, 1); (0, 2, 1)]%Z)
    (Some (list_to_map [(0%Z, [110; 70])])).

Definition PRESET_MOLECULES : gmap string molecule :=
  list_to_map
    [ ("H₂",
       Molecule "covalent" "Hydrogen molecule - single covalent bond"
         [ covalent_atom "H" (-0.5, 0); covalent_atom "H" (0.5, 0) ]
         (Some [(0, 1, 1)]%Z) (Some ∅));
      ("Cl₂",
       Molecule "covalent"
         "Chlorine molecule - single covalent bond, 6 lone pairs total"
         [ covalent_atom "Cl" (-0.5, 0); covalent_atom "Cl" (0.5, 0) ]
         (Some [(0, 1, 1)]%Z)
         (Some (list_to_map [(0%Z, [90; 180; 270]); (1%Z, [90; 0; 270])])));
      ("O₂",
       Molecule "covalent" "Oxygen molecule - double covalent bond"
         [ covalent_atom "O" (-0.5, 0); covalent_atom "O" (0.5, 0) ]
         (Some [(0, 1, 2)]%Z)
         (Some (list_to_map [(0%Z, [90; 270]); (1%Z, [90; 270])])));
      ("N₂",
       Molecule "covalent" "Nitrogen molecule - triple covalent bond"
         [ covalent_atom "N" (-0.5, 0); covalent_atom "N" (0.5, 0) ]
         (Some [(0, 1, 3)]%Z)
         (Some (list_to_map [(0%Z, [180]); (1%Z, [0])])));
      ("HCl",
       Molecule "covalent" "Hydrogen chloride - single covalent bond"
         [ covalent_atom "H" (-0.5, 0); covalent_atom "Cl" (0.5, 0) ]
         (Some [(0, 1, 1)]%Z)
         (Some (list_to_map [(1%Z, [90; 0; 270])])));
      ("HF",
       Molecule "covalent" "Hydrogen fluoride - single covalent bond"
         [ covalent_atom "H" (-0.5, 0); covalent_atom "F" (0.5, 0) ]
         (Some [(0, 1, 1)]%Z)
         (Some (list_to_map [(1%Z, [90; 0; 270])])));
      ("H₂O", water);
      ("H₂S",
       Molecule "covalent" "Hydrogen sulphide - similar to water"
         [ covalent_atom "S" (0, 0);
           covalent_atom "H" (-0.75, -0.6);
           covalent_atom "H" (0.75, -0.6) ]
         (Some [(0, 1, 1); (0, 2, 1)]%Z)
         (Some (list_to_map [(0%Z, [110; 70])])));
      ("NH₃",
       Molecule "covalent" "Ammonia - pyramidal with 1 lone pair on nitrogen"
         [ covalent_atom "N" (0, 0);
           covalent_atom "H" (-0.8, -0.55);
           covalent_atom "H" (0, -0.9);
           covalent_atom "H" (0.8, -0.55) ]
         (Some [(0, 1, 1); (0, 2, 1); (0, 3, 1)]%Z)
         (Some (list_to_map [(0%Z, [90])])));
      ("CH₄",
       Molecule "covalent" "Methane - tetrahedral arrangement"
         [ covalent_atom "C" (0, 0);
           covalent_atom "H" (0, 0.9);
           covalent_atom "H" (-0.8, -0.55);
           covalent_atom "H" (0.8, -0.55);
           covalent_atom "H" (0, -0.9) ]
         (Some [(0, 1, 1); (0, 2, 1); (0, 3, 1); (0, 4, 1)]%Z)
         (Some ∅));
      ("CO₂",
       Molecule "covalent" "Carbon dioxide - linear with double bonds"
         [ covalent_atom "C" (0, 0);
           covalent_atom "O" (-0.9, 0);
           covalent_atom "O" (0.9, 0) ]
         (Some [(0, 1, 2); (0, 2, 2)]%Z)
         (Some (list_to_map [(1%Z, [90; 270]); (2%Z, [90; 270])])));
      ("NaCl",
       Molecule "ionic" "Sodium chloride - Na⁺ and Cl⁻ ions"
         [ ion "Na" (-1.5, 0) "+" 0 None;
           ion "Cl" (1.5, 0) "-" 8 (Some 1%Z) ]
         None None);
      ("MgO",
       Molecule "ionic" "Magnesium oxide - Mg²⁺ and O²⁻ ions"
         [ ion "Mg" (-1.5, 0) "2+" 0 None;
           ion "O" (1.5, 0) "2-" 8 (Some 2%Z) ]
         None None);
      ("MgCl₂",
       Molecule "ionic" "Magnesium chloride - Mg²⁺ and 2×Cl⁻"
         [ ion "Mg" (0, 0) "2+" 0 None;
           ion "Cl" (-1.8, 0) "-" 8 (Some 1%Z);
           ion "Cl" (1.8, 0) "-" 8 (Some 1%Z) ]
         None None);
      ("CaCl₂",
       Molecule "ionic" "Calcium chloride - Ca²⁺ and 2×Cl⁻"
         [ ion "Ca" (0, 0) "2+" 0 None;
           ion "Cl" (-1.8, 0) "-" 8 (Some 1%Z);
           ion "Cl" (1.8, 0) "-" 8 (Some 1%Z) ]
         None None);
      ("Na₂O",
       Molecule "ionic" "Sodium oxide - 2×Na⁺ and O²⁻"
         [ ion "Na" (-1.8, 0) "+" 0 None;
           ion "O" (0, 0) "2-" 8 (Some 2%Z);
           ion "Na" (1.8, 0) "+" 0 None ]
         None None);
      ("KBr",
       Molecule "ionic" "Potassium bromide - K⁺ and Br⁻"
         [ ion "K" (-1.5, 0) "+" 0 None;
           ion "Br" (1.5, 0) "-" 8 (Some 1%Z) ]
         None None);
      ("LiF",
       Molecule "ionic" "Lithium fluoride - Li⁺ and F⁻"
         [ ion "Li" (-1.5, 0) "+" 0 None;
           ion "F" (1.5, 0) "-" 8 (Some 1%Z) ]
         None None) ].

(** [d[key]] on a dictionary. *)
Definition dict_index {V : Type} (d : gmap string V) (key : string)
    : outcome V :=
  match d !! key with
  | Some v => Ok v
  | None => Raise (KeyError key)
  end.

(** [get_preset_molecule(name)]:
    [PRESET_MOLECULES.get(name, PRESET_MOLECULES['H₂O'])]; the default is
    looked up before [get] is called. *)
Definition get_preset_molecule (name : string) : outcome molecule :=
  fallback ← dict_index PRESET_MOLECULES "H₂O";
  Ok (default fallback (PRESET_MOLECULES !! name)).

(** *** Lone-pair placement of [parse_smiles]

    The molecule itself comes from the external layout library; what
    [parse_smiles] computes from it, per atom, is modelled from the bonds
    incident to the atom, each with its type and the direction angle (in
    degrees) towards the bonded atom. *)

Definition ELEMENT_DATA : gmap string (Z * string) :=
  list_to_map
    [ ("H", (1%Z, "Hydrogen")); ("He", (2%Z, "Helium"));
      ("Li", (1%Z, "Lithium")); ("Be", (2%Z, "Beryllium"));
      ("B", (3%Z, "Boron")); ("C", (4%Z, "Carbon"));
      ("N", (5%Z, "Nitrogen")); ("O", (6%Z, "Oxygen"));
      ("F", (7%Z, "Fluorine")); ("Ne", (8%Z, "Neon"));
      ("Na", (1%Z, "Sodium")); ("Mg", (2%Z, "Magnesium"));
      ("Al", (3%Z, "Aluminium")); ("Si", (4%Z, "Silicon"));
      ("P", (5%Z, "Phosphorus")); ("S", (6%Z, "Sulphur"));
      ("Cl", (7%Z, "Chlorine")); ("Ar", (8%Z, "Argon"));
      ("K", (1%Z, "Potassium")); ("Ca", (2%Z, "Calcium"));
      ("Br", (7%Z, "Bromine")); ("I", (7%Z, "Iodine")) ].

Inductive bond_type : Type := SINGLE | DOUBLE | TRIPLE | OTHER.

Definition Qltb (x y : Q) : bool := negb (Qle_bool y x).

(** [x % m] on floats, for a positive [m]. *)
Definition fmod (x m : Q) : Q := x - m * inject_Z (Qfloor (x / m)).

(** [bonded_directions.sort()]: ascending and stable. *)
Fixpoint insert_asc (x : Q) (l : list Q) : list Q :=
  match l with
  | [] => [x]
  | y :: l' => if Qltb x y then x :: l else y :: insert_asc x l'
  end.
Definition sort_asc (l : list Q) : list Q :=
  foldl (fun acc x => insert_asc x acc) [] l.

(** [<] on the tuples [(gap_size, gap_mid)]. *)
Definition gap_ltb (p q : Q * Q) : bool :=
  Qltb p.1 q.1 || (Qeq_bool p.1 q.1 && Qltb p.2 q.2).

(** [gaps.sort(reverse=True)]: descending, equal tuples keep their order. *)
Fixpoint insert_desc (x : Q * Q) (l : list (Q * Q)) : list (Q * Q) :=
  match l with
  | [] => [x]
  | y :: l' => if gap_ltb y x then x :: l else y :: insert_desc x l'
  end.
Definition sort_desc (l : list (Q * Q)) : list (Q * Q) :=
  foldl (fun acc x => insert_desc x acc) [] l.

(** The list [gaps] built over the sorted [bonded_directions]. *)
Definition gaps (bonded_directions : list Q) : list (Q * Q) :=
  let n := length bonded_directions in
  map (fun j =>
         let next_j := ((j + 1) mod n)%nat in
         let gap_start := nth j bonded_directions 0 in
         let gap_end := nth next_j bonded_directions 0 in
         let gap_end :=
           if Qltb gap_end gap_start then gap_end + 360 else gap_end in
         let gap_mid := (gap_start + gap_end) / 2 in
         let gap_size := gap_end - gap_start in
         (gap_size, fmod gap_mid 360))
      (seq 0 n).

(** The value of [lone_pair_angles] for an atom whose bonds point in
    [bonded_directions] and that needs [num_lone_pairs] pairs (empty when
    the block guarded by [num_lone_pairs > 0] is skipped). *)
Definition lone_pair_angles (bonded_directions : list Q) (num_lone_pairs : Z)
    : list Q :=
  if (0 <? num_lone_pairs)%Z then
    match bonded_directions with
    | [] =>
        map (fun j => inject_Z (Z.of_nat j * 360) / inject_Z num_lone_pairs)
            (seq 0 (Z.to_nat num_lone_pairs))
    | _ =>
        let bonded_directions := sort_asc bonded_directions in
        if (length bonded_directions =? 1)%nat then
          let base_angle := nth 0 bonded_directions 0 + 180 in
          if (num_lone_pairs =? 1)%Z then [base_angle]
          else if (num_lone_pairs =? 2)%Z then
            [base_angle - 30; base_angle + 30]
          else if (num_lone_pairs =? 3)%Z then
            [base_angle - 45; base_angle; base_angle + 45]
          else []
        else
          let gaps := sort_desc (gaps bonded_directions) in
          map (fun j => (nth j gaps (0, 0)).2)
              (seq 0 (Z.to_nat (Z.min num_lone_pairs
                                      (Z.of_nat (length gaps)))))
    end
  else [].

Definition bonding_electrons (incident : list (bond_type * Q)) : Z :=
  foldl (fun acc b =>
           match b.1 with
           | SINGLE => acc + 1
           | DOUBLE => acc + 2
           | TRIPLE => acc + 3
           | OTHER => acc
           end%Z) 0%Z incident.

(** The entry [lone_pairs[i]] that [parse_smiles] stores for an atom with
    symbol [symbol], if it stores one. *)
Definition atom_lone_pairs (symbol : string) (incident : list (bond_type * Q))
    : option (list Q) :=
  if String.eqb symbol "H" || String.eqb symbol "He" then None
  else
    let valence := default 0%Z (fst <$> ELEMENT_DATA !! symbol) in
    let bonded_directions := map snd incident in
    let lone_electrons := (valence - bonding_electrons incident)%Z in
    let num_lone_pairs := (lone_electrons / 2)%Z in
    match lone_pair_angles bonded_directions num_lone_pairs with
    | [] => None
    | angles => Some angles
    end.

End dotcross_utils.

(** ** Notions used in the statements *)

Section StatementNotions.
Local Open Scope R_scope.

(** The sweep [get_sector_area] uses: the smaller way round. *)
Definition minor_sweep (angle1 angle2 : R) : R :=
  if gtb (Rabs (angle2 - angle1)) 180 then 360 - Rabs (angle2 - angle1)
  else Rabs (angle2 - angle1).

(** The strict triangle inequality on three side lengths. *)
Definition triangle_inequality (a b c : R) : Prop :=
  a + b > c /\ b + c > a /\ a + c > b.

(** Where the apex lands before rotation and translation. *)
Definition apex (a b c : R) : vec :=
  let x := (b ^ 2 + c ^ 2 - a ^ 2) / (2 * b * c) in
  (- (c / 2) + b * x, 0 + b * sqrt (1 - x²)).

(** The rigid motion applied last: the rotation is skipped at angle 0. *)
Definition place (base_center : vec) (base_angle : R) (p : vec) : vec :=
  vadd (if negb (eqb base_angle 0) then rotate (radians base_angle) p else p)
       base_center.

(** The cross product of two plane vectors, twice a signed area. *)
Definition cross (u v : vec) : R := u.1 * v.2 - u.2 * v.1.

(** Three vertices not on one line, in either winding order. *)
Definition noncollinear (A B C : vec) : Prop :=
  cross (vsub B A) (vsub C A) <> 0.

(** The centroid of a triangle, the mean of its vertices. *)
Definition triangle_centroid (A B C : vec) : vec :=
  vdiv_lit (vadd (vadd A B) C) 3.

(** [get_outward_direction] on the side from [P] to [Q] with opposite
    vertex [K]. *)
Definition outward_of_side (P Q K : vec) : outcome vec :=
  let side_vec := vsub Q P in
  let perp : vec := (- side_vec.2, side_vec.1) in
  perp ← vdiv perp (norm perp);
  let midpoint := vdiv_lit (vadd P Q) 2 in
  let to_opposite := vsub K midpoint in
  Ok (if gtb (dot perp to_opposite) 0 then vneg perp else perp).

(** [get_vertex_angle] at the vertex [V] with previous vertex [P] and next
    vertex [N]. *)
Definition angle_at (P V N : vec) : outcome R :=
  let v1 := vsub P V in
  let v2 := vsub N V in
  cos_angle ← np_div (dot v1 v2) (norm v1 * norm v2);
  Ok (degrees (acos (clip cos_angle (-1) 1))).

(** [get_angle_bisector_direction] at the vertex [V] with previous vertex
    [P] and next vertex [N]. *)
Definition bisector_at (P V N : vec) : outcome vec :=
  v1 ← vdiv (vsub P V) (norm (vsub P V));
  v2 ← vdiv (vsub N V) (norm (vsub N V));
  let bisector := vadd v1 v2 in
  if ltb (norm bisector) 1e-10 then Ok (- v1.2, v1.1)
  else vdiv bisector (norm bisector).

(** The unit vector from [V] towards [P]. *)
Definition unit_towards (P V : vec) : vec :=
  vdiv_lit (vsub P V) (norm (vsub P V)).

(** The previous and the next vertex of vertex [i] of a triangle. *)
Definition triangle_neighbours (A B C : vec) (i : Z) : vec * vec * vec :=
  if (i =? 0)%Z then (C, A, B)
  else if (i =? 1)%Z then (A, B, C)
  else (B, C, A).

(** A rotation about the origin followed by a translation. *)
Definition motion (theta : R) (t : vec) (p : vec) : vec :=
  vadd (rotate theta p) t.

End StatementNotions.

(** * Properties *)

(** ** Primitives *)

Section PrimitiveFacts.
Local Open Scope R_scope.

Lemma gtb_true (x y : R) : gtb x y = true <-> x > y.
Proof. unfold gtb; destruct (Rgt_dec x y); split; intros; congruence || auto. Qed.

Lemma gtb_false (x y : R) : gtb x y = false <-> x <= y.
Proof.
  unfold gtb; destruct (Rgt_dec x y); split; intros; try congruence; lra.
Qed.

Lemma eqb_true (x y : R) : eqb x y = true <-> x = y.
Proof. unfold eqb; destruct (Req_dec_T x y); split; intros; congruence. Qed.

Lemma eqb_false (x y : R) : eqb x y = false <-> x <> y.
Proof. unfold eqb; destruct (Req_dec_T x y); split; intros; congruence. Qed.

Lemma np_div_ok (x y : R) : y <> 0 -> np_div x y = Ok (x / y).
Proof. intros Hy; unfold np_div; apply eqb_false in Hy; now rewrite Hy. Qed.

Lemma py_div_ok (x y : R) : y <> 0 -> py_div x y = Ok (x / y).
Proof. intros Hy; unfold py_div; apply eqb_false in Hy; now rewrite Hy. Qed.

Lemma vdiv_ok (u : vec) (d : R) : d <> 0 -> vdiv u d = Ok (u.1 / d, u.2 / d).
Proof. intros Hd; unfold vdiv; now rewrite !np_div_ok. Qed.

Lemma vec_eq (x1 y1 x2 y2 : R) : x1 = x2 -> y1 = y2 -> (x1, y1) = (x2, y2).
Proof. now intros -> ->. Qed.

Lemma norm_nonneg (u : vec) : 0 <= norm u.
Proof. apply sqrt_pos. Qed.

Lemma norm_sqr (u : vec) : norm u * norm u = u.1 * u.1 + u.2 * u.2.
Proof. unfold norm; apply sqrt_sqrt; nra. Qed.

Lemma norm_zero_iff (u : vec) : norm u = 0 <-> u = (0, 0).
Proof.
  split.
  - intros H; pose proof (norm_sqr u) as Hs; rewrite H in Hs.
    destruct u as [x y]; simpl in *; apply vec_eq; nra.
  - intros ->; unfold norm; simpl.
    replace (0 * 0 + 0 * 0) with 0 by ring; apply sqrt_0.
Qed.

(** The length of a positive multiple of a unit vector. *)
Lemma norm_of_square (u : vec) (l : R) :
  0 <= l -> u.1 * u.1 + u.2 * u.2 = l * l -> norm u = l.
Proof. intros Hl H; unfold norm; rewrite H; now apply sqrt_square. Qed.

Lemma clip_id (x : R) : -1 <= x <= 1 -> clip x (-1) 1 = x.
Proof.
  intros [Hlo Hhi]; unfold clip.
  rewrite Rmax_left by lra; now rewrite Rmin_left by lra.
Qed.

End PrimitiveFacts.

(** ** dotcross_utils: presets and lone pairs *)

Section DotcrossFacts.
Import dotcross_utils.

Lemma preset_water : PRESET_MOLECULES !! "H₂O" = Some water.
Proof. reflexivity. Qed.

Example preset_unknown_name : get_preset_molecule "XeF₄" = Ok water.
Proof. reflexivity. Qed.

Example preset_known_name :
  type <$> PRESET_MOLECULES !! "NaCl" = Some "ionic" /\
  match get_preset_molecule "NaCl" with
  | Ok m => PRESET_MOLECULES !! "NaCl" = Some m
  | _ => False
  end.
Proof. split; reflexivity. Qed.

(** An oxygen with one double bond pointing at 0 degrees keeps two lone
    pairs; a hydrogen never gets any. *)
Example oxygen_one_double_bond :
  atom_lone_pairs "O" [(DOUBLE, 0)] = Some [150; 210] /\
  atom_lone_pairs "H" [(SINGLE, 0)] = None.
Proof. split; reflexivity. Qed.

(** Two bonds pointing down left and down right: the two pairs go to the
    middles of the two gaps, the larger gap first. *)
Example two_bonds_two_pairs :
  map Qred (lone_pair_angles [-38.7; -141.3] 2) = [90; 270].
Proof. reflexivity. Qed.

(** One bond and four pairs: no branch fills the list. *)
Example one_bond_four_pairs : lone_pair_angles [0] 4 = [].
Proof. reflexivity. Qed.

(** C10. [get_preset_molecule] returns a molecule for every name: the entry
    of the preset table when the name is one of its keys, and otherwise the
    H₂O preset (the table's entry under ["H₂O"]); it raises nothing. *)
Theorem get_preset_molecule_total (name : string) :
  PRESET_MOLECULES !! "H₂O" = Some water /\
  exists m : molecule,
    get_preset_molecule name = Ok m /\
    match PRESET_MOLECULES !! name with
    | Some entry => m = entry
    | None => m = water
    end.
Proof.
  split; [exact preset_water|].
  unfold get_preset_molecule, dict_index.
  rewrite preset_water; simpl.
  exists (default water (PRESET_MOLECULES !! name)); split; [reflexivity|].
  now destruct (PRESET_MOLECULES !! name).
Qed.

(** C9. With one bonded direction [theta], the lone pairs fan out around
    the opposite angle [theta + 180]: one pair on it, two pairs 30 degrees
    to either side, three pairs at -45, 0 and +45 degrees from it; a bond at
    0 degrees with two pairs gives 150 and 210 degrees. *)
Theorem lone_pairs_opposite_single_bond (theta : Q) :
  lone_pair_angles [theta] 1 = [theta + 180] /\
  lone_pair_angles [theta] 2 = [theta + 180 - 30; theta + 180 + 30] /\
  lone_pair_angles [theta] 3 =
    [theta + 180 - 45; theta + 180; theta + 180 + 45] /\
  lone_pair_angles [0] 2 = [150; 210].
Proof. repeat split; reflexivity. Qed.

End DotcrossFacts.

(** ** quadrilateral_utils: presets *)

Section QuadrilateralFacts.
Import quadrilateral_utils.
Local Open Scope R_scope.

Lemma get_centroid_4 (a b c d : vec) :
  get_centroid [a; b; c; d] =
  Ok ((a.1 + b.1 + c.1 + d.1) / 4, (a.2 + b.2 + c.2 + d.2) / 4).
Proof.
  unfold get_centroid, vsum; simpl foldl; simpl length.
  replace (INR 4) with 4 by (simpl; lra).
  rewrite vdiv_ok by lra; simpl.
  f_equal; apply vec_eq; field.
Qed.

Ltac centroid_of_four :=
  rewrite get_centroid_4; f_equal;
  unfold rotate, vadd, vsub, radians; simpl; apply vec_eq; field.

Lemma square_centroid (side_length : R) (center : vec) (rotation : R) :
  get_centroid (get_square side_length center rotation) = Ok center.
Proof.
  unfold get_square, rotate_points; destruct center as [cx cy].
  destruct (eqb rotation 0); simpl; centroid_of_four.
Qed.

Lemma rectangle_centroid (width height : R) (center : vec) (rotation : R) :
  get_centroid (get_rectangle width height center rotation) = Ok center.
Proof.
  unfold get_rectangle, rotate_points; destruct center as [cx cy].
  destruct (eqb rotation 0); simpl; centroid_of_four.
Qed.

Lemma parallelogram_centroid (base side angle_deg : R) (center : vec)
    (rotation : R) :
  exists vertices,
    get_parallelogram base side angle_deg center rotation = Ok vertices /\
    get_centroid vertices = Ok center.
Proof.
  unfold get_parallelogram; rewrite get_centroid_4; simpl.
  eexists; split; [reflexivity|].
  unfold rotate_points; destruct center as [cx cy].
  destruct (eqb rotation 0); simpl; centroid_of_four.
Qed.

Lemma trapezium_centroid (parallel_top parallel_bottom height offset : R)
    (center : vec) (rotation : R) :
  exists vertices,
    get_trapezium parallel_top parallel_bottom height offset center rotation
      = Ok vertices /\
    get_centroid vertices = Ok center.
Proof.
  unfold get_trapezium; rewrite get_centroid_4; simpl.
  eexists; split; [reflexivity|].
  unfold rotate_points; destruct center as [cx cy].
  destruct (eqb rotation 0); simpl; centroid_of_four.
Qed.

(** The kite is placed with the crossing point of its diagonals on [center];
    its centroid lies [d2 * (1 - 2 * split_ratio) / 4] further along the
    (rotated) vertical diagonal. *)
Lemma kite_centroid (d1 d2 split_ratio : R) (center : vec) (rotation : R) :
  get_centroid (get_kite d1 d2 split_ratio center rotation) =
  Ok (vadd center
        (rotate (radians rotation) (0, d2 * (1 - 2 * split_ratio) / 4))).
Proof.
  unfold get_kite, rotate_points; destruct center as [cx cy].
  destruct (eqb rotation 0) eqn:Hrot; simpl.
  - apply eqb_true in Hrot; subst rotation.
    rewrite get_centroid_4; f_equal.
    unfold rotate, vadd, radians; simpl.
    replace (0 * PI / 180) with 0 by field.
    rewrite cos_0, sin_0; apply vec_eq; field.
  - centroid_of_four.
Qed.

Lemma rotate_zero_iff (theta : R) (p : vec) :
  rotate theta p = (0, 0) <-> p = (0, 0).
Proof.
  destruct p as [x y]; unfold rotate; simpl; split; intros H.
  - injection H as H1 H2.
    pose proof (sin2_cos2 theta) as Hsc; unfold Rsqr in Hsc.
    assert (Hx : x = (sin theta * sin theta + cos theta * cos theta) * x)
      by (rewrite Hsc; ring).
    assert (Hy : y = (sin theta * sin theta + cos theta * cos theta) * y)
      by (rewrite Hsc; ring).
    apply vec_eq.
    + rewrite Hx.
      replace ((sin theta * sin theta + cos theta * cos theta) * x)
        with (cos theta * (cos theta * x - sin theta * y)
              + sin theta * (sin theta * x + cos theta * y)) by ring.
      rewrite H1, H2; ring.
    + rewrite Hy.
      replace ((sin theta * sin theta + cos theta * cos theta) * y)
        with (cos theta * (sin theta * x + cos theta * y)
              - sin theta * (cos theta * x - sin theta * y)) by ring.
      rewrite H1, H2; ring.
  - injection H as -> ->; apply vec_eq; ring.
Qed.

(** C8. With the default center (0,0) and no rotation, [get_kite] returns
    the vertices (-d1/2, 0), (0, -split*d2), (d1/2, 0), (0, (1-split)*d2) in
    this order, for all [d1], [d2] and [split_ratio] (so in particular for
    positive diagonals and a ratio between 0 and 1); for [d1 = 4],
    [d2 = 6], [split_ratio = 0.5] these are (-2,0), (0,-3), (2,0), (0,3). *)
Theorem get_kite_default_vertices (d1 d2 split_ratio : R) :
  get_kite d1 d2 split_ratio (0, 0) 0 =
    [ (- d1 / 2, 0); (0, - (split_ratio * d2)); (d1 / 2, 0);
      (0, (1 - split_ratio) * d2) ] /\
  get_kite 4 6 0.5 (0, 0) 0 = [ (-2, 0); (0, -3); (2, 0); (0, 3) ].
Proof.
  assert (Hrot : eqb 0 0 = true) by now apply eqb_true.
  unfold get_kite; rewrite Hrot; simpl; unfold vadd; simpl.
  split; repeat (f_equal; try (apply vec_eq; lra)).
Qed.

(** C3, counterexample. The kite with diagonals 4 and 6 and split ratio 0.3,
    asked for at center (0,0), has its centroid at (0, 0.6). *)
Lemma kite_centroid_off_center :
  get_centroid (get_kite 4 6 0.3 (0, 0) 0) = Ok (0, 0.6) /\
  get_centroid (get_kite 4 6 0.3 (0, 0) 0) <> Ok (0, 0).
Proof.
  assert (H : get_centroid (get_kite 4 6 0.3 (0, 0) 0) = Ok (0, 0.6)).
  { assert (Hrot : eqb 0 0 = true) by now apply eqb_true.
    unfold get_kite; rewrite Hrot; simpl.
    rewrite get_centroid_4; f_equal; simpl; apply vec_eq; lra. }
  split; [exact H|].
  rewrite H; intros Heq; injection Heq as Heq; lra.
Qed.

(** C3, as the code has it. For every center and rotation, the square, the
    rectangle, the parallelogram, the rhombus, the trapezium and the
    isosceles trapezium are built successfully and the centroid of their
    vertices is the requested center.  The kite puts the crossing point of
    its diagonals on the center instead: unrotated, its centroid is the
    center moved up by [d2 * (1 - 2 * split_ratio) / 4], and for any
    rotation it is the center exactly when [d2 * (1 - 2 * split_ratio) = 0]. *)
Theorem preset_centroids (center : vec) (rotation : R) :
  (forall side_length,
     get_centroid (get_square side_length center rotation) = Ok center) /\
  (forall width height,
     get_centroid (get_rectangle width height center rotation) = Ok center) /\
  (forall base side angle_deg, exists vertices,
     get_parallelogram base side angle_deg center rotation = Ok vertices /\
     get_centroid vertices = Ok center) /\
  (forall side angle_deg, exists vertices,
     get_rhombus side angle_deg center rotation = Ok vertices /\
     get_centroid vertices = Ok center) /\
  (forall parallel_top parallel_bottom height offset, exists vertices,
     get_trapezium parallel_top parallel_bottom height offset center rotation
       = Ok vertices /\
     get_centroid vertices = Ok center) /\
  (forall parallel_top parallel_bottom height, exists vertices,
     get_isosceles_trapezium parallel_top parallel_bottom height center
       rotation = Ok vertices /\
     get_centroid vertices = Ok center) /\
  (forall d1 d2 split_ratio,
     get_centroid (get_kite d1 d2 split_ratio center 0) =
       Ok (center.1, center.2 + d2 * (1 - 2 * split_ratio) / 4) /\
     (get_centroid (get_kite d1 d2 split_ratio center rotation) = Ok center
      <-> d2 * (1 - 2 * split_ratio) = 0)).
Proof.
  repeat apply conj.
  - intros; apply square_centroid.
  - intros; apply rectangle_centroid.
  - intros; apply parallelogram_centroid.
  - intros; apply parallelogram_centroid.
  - intros; apply trapezium_centroid.
  - intros; apply trapezium_centroid.
  - intros d1 d2 split_ratio; split.
    + rewrite kite_centroid; f_equal.
      unfold rotate, vadd, radians; simpl.
      replace (0 * PI / 180) with 0 by field.
      rewrite cos_0, sin_0; apply vec_eq; field.
    + rewrite kite_centroid.
      set (v := (0, d2 * (1 - 2 * split_ratio) / 4)).
      assert (Hv : rotate (radians rotation) v = (0, 0)
                   <-> d2 * (1 - 2 * split_ratio) = 0).
      { rewrite rotate_zero_iff; unfold v; split; intros H.
        - injection H as H; lra.
        - apply vec_eq; lra. }
      rewrite <- Hv; destruct center as [cx cy].
      destruct (rotate (radians rotation) v) as [rx ry]; unfold vadd; simpl.
      split; intros H.
      * injection H as H1 H2; apply vec_eq; lra.
      * injection H as -> ->; f_equal; apply vec_eq; lra.
Qed.

End QuadrilateralFacts.

(** ** circle_utils: sector area *)

Section CircleFacts.
Import circle_utils.
Local Open Scope R_scope.

Lemma get_sector_area_sweep (radius angle1 angle2 : R) :
  get_sector_area radius angle1 angle2 =
  radius * radius * PI * minor_sweep angle1 angle2 / 360.
Proof.
  unfold get_sector_area, minor_sweep, radians; cbv zeta.
  replace 0.5 with (/ 2) by lra.
  destruct (gtb (Rabs (angle2 - angle1)) 180); field.
Qed.

Lemma minor_sweep_sym (angle1 angle2 : R) :
  minor_sweep angle1 angle2 = minor_sweep angle2 angle1.
Proof. unfold minor_sweep; now rewrite (Rabs_minus_sym angle2 angle1). Qed.

Lemma minor_sweep_half_turn (angle1 angle2 : R) :
  minor_sweep angle1 angle2 = 180 <-> Rabs (angle2 - angle1) = 180.
Proof.
  unfold minor_sweep.
  destruct (gtb (Rabs (angle2 - angle1)) 180) eqn:Hcmp.
  - apply gtb_true in Hcmp; lra.
  - reflexivity.
Qed.

(** C2, counterexample. On the unit circle the sectors from 0 to 90 degrees
    and from 90 to 0 degrees are both the quarter disc: their areas sum to
    half the disc, more than 1 away from the area of the circle. *)
Lemma sector_pair_is_not_full_circle :
  get_sector_area 1 0 90 + get_sector_area 1 90 0 = PI / 2 /\
  Rabs (get_sector_area 1 0 90 + get_sector_area 1 90 0 - PI * 1 ^ 2) > 1.
Proof.
  assert (Hq : forall x y, Rabs (y - x) = 90 -> get_sector_area 1 x y = PI / 4).
  { intros x y Hxy; rewrite get_sector_area_sweep; unfold minor_sweep.
    rewrite Hxy.
    assert (Hcmp : gtb 90 180 = false) by (apply gtb_false; lra).
    rewrite Hcmp; field. }
  assert (H1 : Rabs (90 - 0) = 90) by (rewrite Rabs_right; lra).
  assert (H2 : Rabs (0 - 90) = 90) by now rewrite Rabs_minus_sym.
  rewrite (Hq 0 90 H1), (Hq 90 0 H2).
  pose proof PI2_1 as Hpi; split; [field|].
  replace (PI / 4 + PI / 4 - PI * 1 ^ 2) with (- (PI / 2)) by field.
  rewrite Rabs_Ropp, Rabs_right; lra.
Qed.

(** C2, as the code has it. [get_sector_area] does not depend on the order
    of its two angles, since it always takes the smaller sweep; for a
    positive radius the two areas therefore sum to the area of the circle
    exactly when the angles are 180 degrees apart. *)
Theorem sector_area_order_and_sum (radius angle1 angle2 : R)
    (Hradius : 0 < radius) :
  get_sector_area radius angle1 angle2 = get_sector_area radius angle2 angle1
  /\
  (get_sector_area radius angle1 angle2 + get_sector_area radius angle2 angle1
     = PI * radius ^ 2
   <-> Rabs (angle2 - angle1) = 180).
Proof.
  rewrite !get_sector_area_sweep, (minor_sweep_sym angle2 angle1).
  split; [reflexivity|].
  rewrite <- minor_sweep_half_turn.
  set (d := minor_sweep angle1 angle2).
  pose proof PI_RGT_0 as Hpi.
  assert (Hk : 0 < radius * radius * PI) by (apply Rmult_lt_0_compat; nra).
  split; intros H.
  - assert (Hz : radius * radius * PI * (d - 180) = 0).
    { apply (Rmult_eq_reg_r (/ 180)); [|lra].
      transitivity
        (radius * radius * PI * d / 360 + radius * radius * PI * d / 360
         - PI * radius ^ 2); [field|].
      rewrite H; ring. }
    apply Rmult_integral in Hz; lra.
  - rewrite H; field.
Qed.

(** The theorem at radius 1 and angles 0 and 180. *)
Lemma sector_area_order_and_sum_witness :
  get_sector_area 1 0 180 + get_sector_area 1 180 0 = PI * 1 ^ 2.
Proof.
  apply (proj2 (sector_area_order_and_sum 1 0 180 ltac:(lra))).
  rewrite Rabs_right; lra.
Defined.

End CircleFacts.

(** ** Label placement at a degenerate direction *)

Section LabelFacts.
Local Open Scope R_scope.

Lemma norm_vdiv_lit (u : vec) (k : R) :
  0 < k -> norm (vdiv_lit u k) = norm u / k.
Proof.
  intros Hk; pose proof (norm_nonneg u) as Hn.
  apply norm_of_square.
  - apply Rmult_le_pos; [lra|]; left; now apply Rinv_0_lt_compat.
  - unfold vdiv_lit; simpl.
    transitivity ((u.1 * u.1 + u.2 * u.2) / (k * k)); [field; lra|].
    rewrite <- norm_sqr; field; lra.
Qed.

Lemma norm_origin : norm (vsub (0, 0) (0, 0)) = 0.
Proof. apply norm_zero_iff; unfold vsub; simpl; apply vec_eq; ring. Qed.

(** The direction the quadrilateral vertex label is moved along. *)
Lemma vertex_label_direction_auto (vertex centroid : vec) :
  quadrilateral_utils.vertex_label_direction vertex "auto" (Some centroid) =
  Ok (vdiv_lit (vsub vertex centroid) (norm (vsub vertex centroid) + 1e-10)).
Proof.
  pose proof (norm_nonneg (vsub vertex centroid)) as Hn.
  unfold quadrilateral_utils.vertex_label_direction; simpl.
  rewrite vdiv_ok by lra; reflexivity.
Qed.

(** C4, counterexample. A quadrilateral vertex label asked for at a vertex
    that coincides with the centroid: the direction vector has magnitude 0,
    the direction used is the zero vector and the label lands on the vertex
    itself, not at distance 0.5 above it. *)
Lemma vertex_label_has_no_fallback :
  norm (vsub (0, 0) (0, 0)) < 1e-10 /\
  quadrilateral_utils.vertex_label_direction (0, 0) "auto" (Some (0, 0))
    = Ok (0, 0) /\
  quadrilateral_utils.draw_vertex_label (0, 0) "A" "auto" 0.5 (Some (0, 0))
    = Ok [Text (0, 0) "A"] /\
  quadrilateral_utils.draw_vertex_label (0, 0) "A" "auto" 0.5 (Some (0, 0))
    <> Ok [Text (vadd (0, 0) (vscale 0.5 (0, 1))) "A"].
Proof.
  assert (Hdir : quadrilateral_utils.vertex_label_direction (0, 0) "auto"
                   (Some (0, 0)) = Ok (0, 0)).
  { rewrite vertex_label_direction_auto, norm_origin; f_equal.
    unfold vdiv_lit, vsub; simpl; apply vec_eq; field. }
  assert (Hdraw : quadrilateral_utils.draw_vertex_label (0, 0) "A" "auto" 0.5
                    (Some (0, 0)) = Ok [Text (0, 0) "A"]).
  { unfold quadrilateral_utils.draw_vertex_label.
    change (String.eqb "A" "") with false; cbv iota.
    rewrite Hdir; simpl; unfold vadd, vscale; simpl.
    do 3 f_equal; apply vec_eq; lra. }
  repeat split; try assumption.
  - rewrite norm_origin; lra.
  - rewrite Hdraw; unfold vadd, vscale; simpl; intros H.
    injection H as _ H; lra.
Qed.

(** C4, as the code has it. When the vector from the reference point to the
    anchor has magnitude below 1e-10, the circle label placer takes (0,1)
    as offset direction and puts the label at anchor + distance * (0,1).
    The quadrilateral vertex-label placer has no such fallback: it divides
    the vector by its magnitude plus 1e-10, which always yields a finite
    direction, here of length below 1/2 and zero exactly when the vertex is
    the centroid, and it puts a non-empty label at
    vertex + distance * that direction. *)
Theorem degenerate_label_direction (anchor ref : vec) (text : string)
    (distance : R) (Hsmall : norm (vsub anchor ref) < 1e-10) :
  circle_utils.label_offset_dir anchor (circle_utils.DStr "auto") (Some ref)
    = Ok (0, 1) /\
  circle_utils.draw_label anchor text (circle_utils.DStr "auto") distance
    (Some ref) = Ok [Text (vadd anchor (vscale distance (0, 1))) text] /\
  exists dir_vec : vec,
    quadrilateral_utils.vertex_label_direction anchor "auto" (Some ref)
      = Ok dir_vec /\
    dir_vec = vdiv_lit (vsub anchor ref) (norm (vsub anchor ref) + 1e-10) /\
    norm dir_vec < 1 / 2 /\
    (dir_vec = (0, 0) <-> anchor = ref) /\
    (text <> "" ->
     quadrilateral_utils.draw_vertex_label anchor text "auto" distance
       (Some ref) = Ok [Text (vadd anchor (vscale distance dir_vec)) text]).
Proof.
  pose proof (norm_nonneg (vsub anchor ref)) as Hn.
  assert (Hoff : circle_utils.label_offset_dir anchor
                   (circle_utils.DStr "auto") (Some ref) = Ok (0, 1)).
  { unfold circle_utils.label_offset_dir; simpl.
    assert (Hcmp : gtb (norm (vsub anchor ref)) 1e-10 = false)
      by (apply gtb_false; lra).
    now rewrite Hcmp. }
  split; [exact Hoff|]; split.
  { unfold circle_utils.draw_label; rewrite Hoff; reflexivity. }
  eexists; split; [apply vertex_label_direction_auto|].
  split; [reflexivity|]; split; [|split].
  - rewrite norm_vdiv_lit by lra.
    apply (Rmult_lt_reg_r (norm (vsub anchor ref) + 1e-10)); [lra|].
    unfold Rdiv at 1; rewrite Rmult_assoc, Rinv_l by lra; lra.
  - rewrite <- norm_zero_iff, norm_vdiv_lit by lra.
    destruct anchor as [ax ay], ref as [rx ry]; split; intros H.
    + assert (Hz : norm (vsub (ax, ay) (rx, ry)) = 0).
      { apply (Rmult_eq_reg_r (/ (norm (vsub (ax, ay) (rx, ry)) + 1e-10))).
        - rewrite Rmult_0_l; exact H.
        - apply Rinv_neq_0_compat; lra. }
      apply norm_zero_iff in Hz; unfold vsub in Hz; simpl in Hz.
      injection Hz as Hx Hy; apply vec_eq; lra.
    + injection H as -> ->.
      replace (vsub (rx, ry) (rx, ry)) with ((0, 0) : vec)
        by (unfold vsub; simpl; apply vec_eq; ring).
      replace (norm (0, 0)) with 0; [field; lra|].
      symmetry; now apply norm_zero_iff.
  - intros Htext; unfold quadrilateral_utils.draw_vertex_label.
    apply String.eqb_neq in Htext; rewrite Htext.
    rewrite vertex_label_direction_auto; reflexivity.
Qed.

(** The theorem at a label whose anchor is its reference point. *)
Lemma degenerate_label_direction_witness :
  circle_utils.draw_label (0, 0) "A" (circle_utils.DStr "auto") 0.5
    (Some (0, 0)) = Ok [Text (vadd (0, 0) (vscale 0.5 (0, 1))) "A"].
Proof.
  assert (Hsmall : norm (vsub (0, 0) (0, 0)) < 1e-10)
    by (rewrite norm_origin; lra).
  exact (proj1 (proj2
           (degenerate_label_direction (0, 0) (0, 0) "A" 0.5 Hsmall))).
Defined.

End LabelFacts.

(** ** triangle_utils: construction from three sides *)

Section TriangleSSS.
Import triangle_utils.
Local Open Scope R_scope.

Lemma triangle_inequality_test (a b c : R) :
  gtb (a + b) c && gtb (b + c) a && gtb (a + c) b = true
  <-> triangle_inequality a b c.
Proof.
  unfold triangle_inequality.
  rewrite !andb_true_iff, !gtb_true; tauto.
Qed.

Lemma triangle_inequality_positive (a b c : R) :
  triangle_inequality a b c -> 0 < a /\ 0 < b /\ 0 < c.
Proof. unfold triangle_inequality; lra. Qed.

(** The cosine the law of cosines gives lies strictly between -1 and 1. *)
Lemma law_of_cosines_bound (a b c : R) :
  triangle_inequality a b c ->
  -1 < (b ^ 2 + c ^ 2 - a ^ 2) / (2 * b * c) < 1.
Proof.
  intros H; destruct (triangle_inequality_positive _ _ _ H) as (Ha & Hb & Hc).
  destruct H as (H1 & H2 & H3).
  assert (Hbc : 0 < 2 * b * c) by nra.
  split.
  - apply (Rmult_lt_reg_r (2 * b * c)); [exact Hbc|].
    replace ((b ^ 2 + c ^ 2 - a ^ 2) / (2 * b * c) * (2 * b * c))
      with (b ^ 2 + c ^ 2 - a ^ 2) by (field; lra).
    assert (0 < (b + c - a) * (b + c + a)) by (apply Rmult_lt_0_compat; lra).
    nra.
  - apply (Rmult_lt_reg_r (2 * b * c)); [exact Hbc|].
    replace ((b ^ 2 + c ^ 2 - a ^ 2) / (2 * b * c) * (2 * b * c))
      with (b ^ 2 + c ^ 2 - a ^ 2) by (field; lra).
    assert (0 < (a + b - c) * (a + c - b)) by (apply Rmult_lt_0_compat; lra).
    nra.
Qed.

Lemma sss_vertices (a b c : R) (base_center : vec) (base_angle : R) :
  triangle_inequality a b c ->
  get_triangle_vertices_from_sss a b c base_center base_angle =
  Ok [ place base_center base_angle (- (c / 2), 0);
       place base_center base_angle (c / 2, 0);
       place base_center base_angle (apex a b c) ].
Proof.
  intros H; pose proof (law_of_cosines_bound _ _ _ H) as Hcos.
  destruct (triangle_inequality_positive _ _ _ H) as (Ha & Hb & Hc).
  apply triangle_inequality_test in H.
  unfold get_triangle_vertices_from_sss; rewrite H; simpl negb; cbv iota.
  rewrite py_div_ok by nra; simpl.
  rewrite clip_id by lra.
  rewrite cos_acos, sin_acos by lra.
  unfold place, apex; destruct (negb (eqb base_angle 0)); reflexivity.
Qed.

Lemma place_isometry (base_center : vec) (base_angle : R) (p q : vec) :
  norm (vsub (place base_center base_angle p)
             (place base_center base_angle q)) = norm (vsub p q).
Proof.
  unfold place; destruct (negb (eqb base_angle 0)).
  - apply norm_of_square; [apply norm_nonneg|].
    rewrite norm_sqr.
    pose proof (sin2_cos2 (radians base_angle)) as Hsc; unfold Rsqr in Hsc.
    set (s := sin (radians base_angle)) in *.
    set (k := cos (radians base_angle)) in *.
    destruct p as [px py], q as [qx qy], base_center as [tx ty].
    unfold vsub, vadd, rotate; simpl; fold s k.
    transitivity ((s * s + k * k)
                  * ((px - qx) * (px - qx) + (py - qy) * (py - qy)));
      [ring | rewrite Hsc; ring].
  - unfold norm, vsub, vadd; simpl; f_equal; ring.
Qed.

Lemma sss_base_length (a b c : R) :
  0 < c -> norm (vsub (c / 2, 0) (- (c / 2), 0)) = c.
Proof.
  intros Hc; apply norm_of_square; [lra|]; unfold vsub; simpl; field.
Qed.

Lemma sss_leg_a (a b c : R) :
  triangle_inequality a b c -> norm (vsub (apex a b c) (c / 2, 0)) = a.
Proof.
  intros H; pose proof (law_of_cosines_bound _ _ _ H) as Hcos.
  destruct (triangle_inequality_positive _ _ _ H) as (Ha & Hb & Hc).
  apply norm_of_square; [lra|]; unfold apex, vsub; cbv zeta; cbn [fst snd].
  set (x := (b ^ 2 + c ^ 2 - a ^ 2) / (2 * b * c)) in *.
  assert (Hs : sqrt (1 - x²) * sqrt (1 - x²) = 1 - x²).
  { apply sqrt_sqrt; unfold Rsqr; nra. }
  transitivity (b * b * (x² + sqrt (1 - x²) * sqrt (1 - x²))
                + c * c - 2 * b * c * x); [unfold Rsqr; field|].
  rewrite Hs; unfold x; field; lra.
Qed.

Lemma sss_leg_b (a b c : R) :
  triangle_inequality a b c -> norm (vsub (- (c / 2), 0) (apex a b c)) = b.
Proof.
  intros H; pose proof (law_of_cosines_bound _ _ _ H) as Hcos.
  destruct (triangle_inequality_positive _ _ _ H) as (Ha & Hb & Hc).
  apply norm_of_square; [lra|]; unfold apex, vsub; cbv zeta; cbn [fst snd].
  set (x := (b ^ 2 + c ^ 2 - a ^ 2) / (2 * b * c)) in *.
  assert (Hs : sqrt (1 - x²) * sqrt (1 - x²) = 1 - x²).
  { apply sqrt_sqrt; unfold Rsqr; nra. }
  transitivity (b * b * (x² + sqrt (1 - x²) * sqrt (1 - x²)));
    [unfold Rsqr; ring|].
  rewrite Hs; ring.
Qed.

(** The three side lengths of the constructed triangle, exactly. *)
Lemma sss_sides_exact (a b c : R) (base_center : vec)
    (base_angle : R) :
  triangle_inequality a b c ->
  exists vertices,
    get_triangle_vertices_from_sss a b c base_center base_angle = Ok vertices
    /\ get_side_length vertices 0 = Ok c
    /\ get_side_length vertices 1 = Ok a
    /\ get_side_length vertices 2 = Ok b.
Proof.
  intros H; destruct (triangle_inequality_positive _ _ _ H) as (Ha & Hb & Hc).
  eexists; split; [now apply sss_vertices|].
  unfold get_side_length; simpl.
  rewrite !place_isometry, sss_base_length, sss_leg_a, sss_leg_b by assumption.
  repeat split.
Qed.

Example sss_flat_triangle_raises :
  get_triangle_vertices_from_sss 1 2 3 (0, 0) 0 =
  Raise (ValueError
           "Invalid triangle: side lengths violate triangle inequality").
Proof.
  unfold get_triangle_vertices_from_sss.
  assert (H : gtb (1 + 2) 3 = false) by (apply gtb_false; lra).
  now rewrite H.
Qed.

(** C1. [get_triangle_vertices_from_sss] raises (a [ValueError]) exactly
    when the strict triangle inequality fails; when it holds the call
    returns three vertices [A; B; C] whose base A-B has length [c], the
    side that was asked for. *)
Theorem sss_raises_iff_inequality_fails (a b c : R) (base_center : vec)
    (base_angle : R) :
  (is_error (get_triangle_vertices_from_sss a b c base_center base_angle)
   <-> ~ triangle_inequality a b c) /\
  (~ triangle_inequality a b c ->
   get_triangle_vertices_from_sss a b c base_center base_angle =
   Raise (ValueError
            "Invalid triangle: side lengths violate triangle inequality")) /\
  (triangle_inequality a b c ->
   exists A B C : vec,
     get_triangle_vertices_from_sss a b c base_center base_angle
       = Ok [A; B; C] /\
     norm (vsub B A) = c /\
     get_side_length [A; B; C] 0 = Ok c).
Proof.
  assert (Hfail : ~ triangle_inequality a b c ->
    get_triangle_vertices_from_sss a b c base_center base_angle =
    Raise (ValueError
             "Invalid triangle: side lengths violate triangle inequality")).
  { intros Hn; unfold get_triangle_vertices_from_sss.
    destruct (gtb (a + b) c && gtb (b + c) a && gtb (a + c) b) eqn:Htest;
      [|reflexivity].
    now apply triangle_inequality_test in Htest. }
  assert (Hok : triangle_inequality a b c ->
    exists A B C : vec,
      get_triangle_vertices_from_sss a b c base_center base_angle
        = Ok [A; B; C] /\
      norm (vsub B A) = c /\
      get_side_length [A; B; C] 0 = Ok c).
  { intros H; destruct (triangle_inequality_positive _ _ _ H) as (_ & _ & Hc).
    do 3 eexists; split; [now apply sss_vertices|].
    unfold get_side_length; simpl.
    rewrite !place_isometry, sss_base_length by assumption; now split. }
  split; [|split; assumption].
  split.
  - intros [e He] H; destruct (Hok H) as (A & B & C & Heq & _); congruence.
  - intros Hn; eexists; now apply Hfail.
Qed.

(** C5. For sides satisfying the strict triangle inequality the triangle is
    built, and [get_side_length] on its sides 0, 1 and 2 returns values
    within 1e-6 of [c], [a] and [b] respectively. *)
Theorem sss_side_lengths (a b c : R) (base_center : vec) (base_angle : R)
    (Hineq : a + b > c /\ b + c > a /\ a + c > b) :
  exists (vertices : list vec) (s0 s1 s2 : R),
    get_triangle_vertices_from_sss a b c base_center base_angle = Ok vertices
    /\ get_side_length vertices 0 = Ok s0
    /\ get_side_length vertices 1 = Ok s1
    /\ get_side_length vertices 2 = Ok s2
    /\ Rabs (s0 - c) <= 1e-6 /\ Rabs (s1 - a) <= 1e-6
    /\ Rabs (s2 - b) <= 1e-6.
Proof.
  destruct (sss_sides_exact a b c base_center base_angle Hineq)
    as (vertices & Hv & H0 & H1 & H2).
  exists vertices, c, a, b; repeat (split; [assumption|]).
  replace (c - c) with 0 by ring; replace (a - a) with 0 by ring.
  replace (b - b) with 0 by ring; rewrite Rabs_R0; lra.
Qed.

(** The theorem at the 3-4-5 triangle on the default base. *)
Lemma sss_side_lengths_witness :
  exists (vertices : list vec) (s0 s1 s2 : R),
    get_triangle_vertices_from_sss 3 4 5 (0, 0) 0 = Ok vertices
    /\ get_side_length vertices 0 = Ok s0
    /\ get_side_length vertices 1 = Ok s1
    /\ get_side_length vertices 2 = Ok s2
    /\ Rabs (s0 - 5) <= 1e-6 /\ Rabs (s1 - 3) <= 1e-6
    /\ Rabs (s2 - 4) <= 1e-6.
Proof.
  apply (sss_side_lengths 3 4 5 (0, 0) 0); lra.
Defined.

End TriangleSSS.

(** ** triangle_utils: outward normals and interior angles *)

Section TriangleQueries.
Import triangle_utils.
Local Open Scope R_scope.

Lemma noncollinear_distinct (A B C : vec) :
  noncollinear A B C -> A <> B /\ B <> C /\ C <> A.
Proof.
  unfold noncollinear, cross, vsub; destruct A, B, C; simpl; intros H.
  repeat split; intros Heq; injection Heq as -> ->; apply H; ring.
Qed.

Lemma norm_pos_distinct (P Q : vec) : P <> Q -> 0 < norm (vsub Q P).
Proof.
  intros Hne; destruct (norm_nonneg (vsub Q P)) as [Hlt | Hz]; [exact Hlt|].
  exfalso; apply Hne; symmetry in Hz; apply norm_zero_iff in Hz.
  destruct P, Q; unfold vsub in Hz; simpl in Hz; injection Hz as Hx Hy.
  apply vec_eq; lra.
Qed.

Lemma get_outward_direction_sides (A B C : vec) :
  get_outward_direction [A; B; C] 0 = outward_of_side A B C /\
  get_outward_direction [A; B; C] 1 = outward_of_side B C A /\
  get_outward_direction [A; B; C] 2 = outward_of_side C A B.
Proof.
  unfold get_outward_direction, outward_of_side; simpl.
  repeat split;
    match goal with
    | |- context [vdiv ?p ?d] => destruct (vdiv p d); reflexivity
    end.
Qed.

Lemma bind_Ok {A B : Type} (f : A -> outcome B) (a : A) :
  mbind f (Ok a) = f a.
Proof. reflexivity. Qed.

Lemma outward_of_side_spec (P Q K : vec) :
  P <> Q ->
  exists n : vec,
    outward_of_side P Q K = Ok n /\
    norm n = 1 /\
    dot n (vsub (vdiv_lit (vadd (vadd P Q) K) 3) (vdiv_lit (vadd P Q) 2)) <= 0.
Proof.
  intros Hne; pose proof (norm_pos_distinct P Q Hne) as Hlen.
  pose proof (norm_sqr (vsub Q P)) as HL.
  assert (Hcen : forall n : vec,
            dot n (vsub (vdiv_lit (vadd (vadd P Q) K) 3)
                        (vdiv_lit (vadd P Q) 2))
            = dot n (vsub K (vdiv_lit (vadd P Q) 2)) / 3).
  { intros n; unfold dot, vsub, vdiv_lit, vadd; cbn [fst snd]; field. }
  unfold outward_of_side; cbv zeta.
  assert (Hperp : norm (- (vsub Q P).2, (vsub Q P).1) = norm (vsub Q P)).
  { unfold norm; cbn [fst snd]; f_equal; ring. }
  rewrite Hperp, vdiv_ok, bind_Ok by lra; cbn [fst snd].
  remember (vsub K (vdiv_lit (vadd P Q) 2)) as to_opposite eqn:Eopp.
  remember (norm (vsub Q P)) as L eqn:EL.
  remember (vsub Q P) as side_vec eqn:Eside.
  clear Eopp EL Eside Hperp Hne.
  destruct side_vec as [sx sy]; cbn [fst snd] in *.
  set (n0 := (- sy / L, sx / L) : vec).
  assert (Hunit : n0.1 * n0.1 + n0.2 * n0.2 = 1 * 1).
  { unfold n0; cbn [fst snd].
    transitivity ((sx * sx + sy * sy) / (L * L));
      [field; lra | rewrite <- HL; field; lra]. }
  eexists; split; [reflexivity|].
  destruct (gtb (dot n0 to_opposite) 0) eqn:Hcmp.
  - apply gtb_true in Hcmp; split.
    + apply norm_of_square; [lra|].
      rewrite <- Hunit; unfold vneg; cbn [fst snd]; ring.
    + rewrite Hcen.
      replace (dot (vneg n0) to_opposite) with (- dot n0 to_opposite)
        by (unfold dot, vneg; cbn [fst snd]; ring).
      lra.
  - apply gtb_false in Hcmp; split.
    + apply norm_of_square; [lra | exact Hunit].
    + rewrite Hcen; lra.
Qed.

(** C7. For each side of a triangle whose vertices are not on one line, in
    either winding order, [get_outward_direction] returns a vector of
    length 1 whose dot product with the vector from the midpoint of the
    side to the centroid of the triangle is at most 0. *)
Theorem outward_direction_points_away (A B C : vec) (side_index : Z)
    (Hside : (0 <= side_index < 3)%Z) (Htriangle : noncollinear A B C) :
  exists n mid : vec,
    get_outward_direction [A; B; C] side_index = Ok n /\
    get_side_midpoint [A; B; C] side_index = Ok mid /\
    norm n = 1 /\
    dot n (vsub (triangle_centroid A B C) mid) <= 0.
Proof.
  destruct (noncollinear_distinct A B C Htriangle) as (HAB & HBC & HCA).
  destruct (get_outward_direction_sides A B C) as (E0 & E1 & E2).
  assert (Hcases : side_index = 0%Z \/ side_index = 1%Z \/ side_index = 2%Z)
    by lia.
  destruct Hcases as [-> | [-> | ->]].
  - destruct (outward_of_side_spec A B C HAB) as (n & Hn & Hunit & Hdot).
    exists n, (vdiv_lit (vadd A B) 2); rewrite E0.
    repeat split; assumption.
  - destruct (outward_of_side_spec B C A HBC) as (n & Hn & Hunit & Hdot).
    exists n, (vdiv_lit (vadd B C) 2); rewrite E1.
    repeat split; try assumption.
    replace (triangle_centroid A B C) with (vdiv_lit (vadd (vadd B C) A) 3);
      [exact Hdot|].
    unfold triangle_centroid, vdiv_lit, vadd; simpl; apply vec_eq; field.
  - destruct (outward_of_side_spec C A B HCA) as (n & Hn & Hunit & Hdot).
    exists n, (vdiv_lit (vadd C A) 2); rewrite E2.
    repeat split; try assumption.
    replace (triangle_centroid A B C) with (vdiv_lit (vadd (vadd C A) B) 3);
      [exact Hdot|].
    unfold triangle_centroid, vdiv_lit, vadd; simpl; apply vec_eq; field.
Qed.

(** The theorem at the base of the triangle (0,0), (4,0), (0,3). *)
Lemma outward_direction_points_away_witness :
  exists n mid : vec,
    get_outward_direction [(0, 0); (4, 0); (0, 3)] 0 = Ok n /\
    get_side_midpoint [(0, 0); (4, 0); (0, 3)] 0 = Ok mid /\
    norm n = 1 /\
    dot n (vsub (triangle_centroid (0, 0) (4, 0) (0, 3)) mid) <= 0.
Proof.
  apply (outward_direction_points_away (0, 0) (4, 0) (0, 3) 0).
  - lia.
  - unfold noncollinear, cross, vsub; simpl; lra.
Defined.

(** *** Interior angles *)

(** The angle sum in terms of the side lengths [a], [b], [c], the dot
    product [d] of the two sides at the first vertex and twice the area
    [K]. *)
Lemma acos_sum_of_triangle (a b c K d : R) :
  0 < a -> 0 < b -> 0 < c -> 0 < K ->
  a * a = b * b + c * c - 2 * d ->
  K * K = b * b * (c * c) - d * d ->
  (-1 <= d / (b * c) <= 1) /\
  (-1 <= (c * c - d) / (c * a) <= 1) /\
  (-1 <= (b * b - d) / (a * b) <= 1) /\
  acos (d / (b * c)) + acos ((c * c - d) / (c * a))
    + acos ((b * b - d) / (a * b)) = PI.
Proof.
  intros Ha Hb Hc HK Hcos Harea.
  set (x := d / (b * c)); set (y := (c * c - d) / (c * a)).
  set (z := (b * b - d) / (a * b)).
  set (sx := K / (b * c)); set (sy := K / (c * a)); set (sz := K / (a * b)).
  assert (Hsx : 0 < sx) by (apply Rdiv_lt_0_compat; nra).
  assert (Hsy : 0 < sy) by (apply Rdiv_lt_0_compat; nra).
  assert (Hsz : 0 < sz) by (apply Rdiv_lt_0_compat; nra).
  assert (Hx : x * x + sx * sx = 1).
  { unfold x, sx.
    transitivity ((d * d + K * K) / (b * b * (c * c))); [field; lra|].
    rewrite Harea; field; lra. }
  assert (Hy : y * y + sy * sy = 1).
  { unfold y, sy.
    transitivity (((c * c - d) * (c * c - d) + K * K) / (c * c * (a * a)));
      [field; lra|].
    replace ((c * c - d) * (c * c - d) + K * K) with (c * c * (a * a))
      by (rewrite Harea, Hcos; ring).
    field; lra. }
  assert (Hz : z * z + sz * sz = 1).
  { unfold z, sz.
    transitivity (((b * b - d) * (b * b - d) + K * K) / (a * a * (b * b)));
      [field; lra|].
    replace ((b * b - d) * (b * b - d) + K * K) with (a * a * (b * b))
      by (rewrite Harea, Hcos; ring).
    field; lra. }
  assert (Bx : -1 <= x <= 1) by (split; nra).
  assert (By : -1 <= y <= 1) by (split; nra).
  assert (Bz : -1 <= z <= 1) by (split; nra).
  assert (Hsin : forall t s, -1 <= t <= 1 -> 0 < s -> t * t + s * s = 1 ->
                             sin (acos t) = s).
  { intros t s Bt Hs Hts; rewrite sin_acos by exact Bt.
    replace (1 - t²) with (s * s) by (unfold Rsqr; lra).
    apply sqrt_square; lra. }
  repeat (split; [assumption|]).
  pose proof (acos_bound x) as Rx; pose proof (acos_bound y) as Ry.
  pose proof (acos_bound z) as Rz.
  assert (Hsum_sin : sin (acos x + acos y) = sz).
  { rewrite sin_plus, !cos_acos by assumption.
    rewrite (Hsin x sx), (Hsin y sy) by assumption.
    unfold x, y, sx, sy, sz; field; lra. }
  assert (Hsum_cos : cos (acos x + acos y) = - z).
  { rewrite cos_plus, !cos_acos by assumption.
    rewrite (Hsin x sx), (Hsin y sy) by assumption.
    unfold x, y, z, sx, sy.
    transitivity ((d * (c * c - d) - K * K) / (a * b * (c * c)));
      [field; lra|].
    rewrite Harea; field; lra. }
  assert (Hlt : acos x + acos y < PI).
  { destruct (Rlt_dec (acos x + acos y) PI) as [Hl | Hge]; [exact Hl|].
    exfalso; assert (Hneg : sin (acos x + acos y) <= 0)
      by (apply sin_le_0; lra).
    lra. }
  assert (Heq : PI - (acos x + acos y) = acos z).
  { apply cos_inj; [lra | lra |].
    rewrite cos_minus, cos_PI, sin_PI, Hsum_cos, cos_acos by assumption.
    ring. }
  lra.
Qed.

Lemma norm_vsub_sym (P Q : vec) : norm (vsub P Q) = norm (vsub Q P).
Proof. unfold norm, vsub; cbn [fst snd]; f_equal; ring. Qed.

Lemma get_vertex_angle_vertices (A B C : vec) :
  get_vertex_angle [A; B; C] 0 = angle_at C A B /\
  get_vertex_angle [A; B; C] 1 = angle_at A B C /\
  get_vertex_angle [A; B; C] 2 = angle_at B C A.
Proof. repeat split; reflexivity. Qed.

Lemma angle_at_value (P V N : vec) (x : R) :
  norm (vsub P V) * norm (vsub N V) <> 0 ->
  dot (vsub P V) (vsub N V) / (norm (vsub P V) * norm (vsub N V)) = x ->
  -1 <= x <= 1 ->
  angle_at P V N = Ok (degrees (acos x)).
Proof.
  intros Hden Hx Bx; unfold angle_at; cbv zeta.
  rewrite np_div_ok, bind_Ok, Hx, clip_id by assumption; reflexivity.
Qed.

Lemma Rabs_square (x : R) : Rabs x * Rabs x = x * x.
Proof. unfold Rabs; destruct (Rcase_abs x); ring. Qed.

(** The three interior angles add up to 180 degrees, exactly. *)
Lemma vertex_angles_exact (A B C : vec) :
  noncollinear A B C ->
  exists alpha beta gamma : R,
    get_vertex_angle [A; B; C] 0 = Ok alpha /\
    get_vertex_angle [A; B; C] 1 = Ok beta /\
    get_vertex_angle [A; B; C] 2 = Ok gamma /\
    alpha + beta + gamma = 180.
Proof.
  intros Htri.
  destruct (noncollinear_distinct A B C Htri) as (HAB & HBC & HCA).
  destruct (get_vertex_angle_vertices A B C) as (E0 & E1 & E2).
  rewrite E0, E1, E2; clear E0 E1 E2.
  pose proof (norm_pos_distinct B C HBC) as Ha.
  pose proof (norm_pos_distinct A C (not_eq_sym HCA)) as Hb.
  pose proof (norm_pos_distinct A B HAB) as Hc.
  assert (HK : 0 < Rabs (cross (vsub B A) (vsub C A)))
    by now apply Rabs_pos_lt.
  assert (Hcos : norm (vsub C B) * norm (vsub C B)
                 = norm (vsub C A) * norm (vsub C A)
                   + norm (vsub B A) * norm (vsub B A)
                   - 2 * dot (vsub C A) (vsub B A)).
  { rewrite !norm_sqr; unfold dot, vsub; cbn [fst snd]; ring. }
  assert (Harea : Rabs (cross (vsub B A) (vsub C A))
                  * Rabs (cross (vsub B A) (vsub C A))
                  = norm (vsub C A) * norm (vsub C A)
                    * (norm (vsub B A) * norm (vsub B A))
                    - dot (vsub C A) (vsub B A) * dot (vsub C A) (vsub B A)).
  { rewrite Rabs_square, !norm_sqr; unfold cross, dot, vsub; cbn [fst snd].
    ring. }
  assert (HdB : dot (vsub A B) (vsub C B)
                = norm (vsub B A) * norm (vsub B A)
                  - dot (vsub C A) (vsub B A)).
  { rewrite norm_sqr; unfold dot, vsub; cbn [fst snd]; ring. }
  assert (HdC : dot (vsub B C) (vsub A C)
                = norm (vsub C A) * norm (vsub C A)
                  - dot (vsub C A) (vsub B A)).
  { rewrite norm_sqr; unfold dot, vsub; cbn [fst snd]; ring. }
  remember (norm (vsub C B)) as a eqn:Ea.
  remember (norm (vsub C A)) as b eqn:Eb.
  remember (norm (vsub B A)) as c eqn:Ec.
  remember (dot (vsub C A) (vsub B A)) as d eqn:Ed.
  remember (Rabs (cross (vsub B A) (vsub C A))) as K eqn:EK.
  destruct (acos_sum_of_triangle a b c K d Ha Hb Hc HK Hcos Harea)
    as (Bx & By & Bz & Hsum).
  exists (degrees (acos (d / (b * c)))),
         (degrees (acos ((c * c - d) / (c * a)))),
         (degrees (acos ((b * b - d) / (a * b)))).
  split; [|split; [|split]].
  - apply angle_at_value; [rewrite <- Eb, <- Ec; nra | | exact Bx].
    now rewrite <- Eb, <- Ec, <- Ed.
  - apply angle_at_value; [ | | exact By].
    + rewrite (norm_vsub_sym A B), <- Ec, <- Ea; nra.
    + now rewrite (norm_vsub_sym A B), <- Ec, <- Ea, HdB.
  - apply angle_at_value; [ | | exact Bz].
    + rewrite (norm_vsub_sym B C), (norm_vsub_sym A C), <- Ea, <- Eb; nra.
    + now rewrite (norm_vsub_sym B C), (norm_vsub_sym A C), <- Ea, <- Eb, HdC.
  - pose proof PI_RGT_0 as Hpi; unfold degrees.
    transitivity ((acos (d / (b * c)) + acos ((c * c - d) / (c * a))
                   + acos ((b * b - d) / (a * b))) * 180 / PI);
      [field; lra|].
    rewrite Hsum; field; lra.
Qed.

(** C6. For a triangle whose three vertices are not on one line,
    [get_vertex_angle] returns an angle at each of the vertices 0, 1 and 2,
    and the three angles add up to 180 degrees within 1e-4 degrees. *)
Theorem vertex_angles_sum (A B C : vec) (Htriangle : noncollinear A B C) :
  exists alpha beta gamma : R,
    get_vertex_angle [A; B; C] 0 = Ok alpha /\
    get_vertex_angle [A; B; C] 1 = Ok beta /\
    get_vertex_angle [A; B; C] 2 = Ok gamma /\
    Rabs (alpha + beta + gamma - 180) <= 1e-4.
Proof.
  destruct (vertex_angles_exact A B C Htriangle)
    as (alpha & beta & gamma & H0 & H1 & H2 & Hsum).
  exists alpha, beta, gamma; repeat (split; [assumption|]).
  rewrite Hsum; replace (180 - 180) with 0 by ring; rewrite Rabs_R0; lra.
Qed.

(** The theorem at the triangle (0,0), (4,0), (0,3). *)
Lemma vertex_angles_sum_witness :
  exists alpha beta gamma : R,
    get_vertex_angle [(0, 0); (4, 0); (0, 3)] 0 = Ok alpha /\
    get_vertex_angle [(0, 0); (4, 0); (0, 3)] 1 = Ok beta /\
    get_vertex_angle [(0, 0); (4, 0); (0, 3)] 2 = Ok gamma /\
    Rabs (alpha + beta + gamma - 180) <= 1e-4.
Proof.
  apply (vertex_angles_sum (0, 0) (4, 0) (0, 3)).
  unfold noncollinear, cross, vsub; simpl; lra.
Defined.

End TriangleQueries.

(** ** circle_utils: points, chords, tangents and labels *)

Section CirclePoints.
Import circle_utils.
Local Open Scope R_scope.

Lemma radians_plus (x y : R) : radians (x + y) = radians x + radians y.
Proof. unfold radians; field. Qed.

Lemma radians_half_turn : radians 180 = PI.
Proof. unfold radians; field. Qed.

Lemma radians_full_turn : radians 360 = 2 * PI.
Proof. unfold radians; field. Qed.

Lemma radians_quarter_turn : radians 90 = PI / 2.
Proof. unfold radians; field. Qed.

Lemma sin_cos_unit (t : R) : cos t * cos t + sin t * sin t = 1.
Proof. pose proof (sin2_cos2 t) as H; unfold Rsqr in H; lra. Qed.

(** The length of a multiple of a direction [(cos t, sin t)]. *)
Lemma norm_polar (k t : R) : norm (k * cos t, k * sin t) = Rabs k.
Proof.
  apply norm_of_square; [apply Rabs_pos|]; cbn [fst snd].
  rewrite Rabs_square.
  transitivity (k * k * (cos t * cos t + sin t * sin t)); [ring|].
  rewrite sin_cos_unit; ring.
Qed.

Lemma point_on_circle_offset (center : vec) (radius angle : R) :
  vsub (point_on_circle center radius angle) center =
  (radius * cos (radians angle), radius * sin (radians angle)).
Proof.
  unfold point_on_circle, vsub; cbn [fst snd]; apply vec_eq; ring.
Qed.

(** X1. A point returned by [point_on_circle] lies at distance [|radius|]
    from the center, and adding a full turn of 360 degrees to the angle
    gives the same point. *)
Theorem point_on_circle_radius_and_period (center : vec)
    (radius angle_degrees : R) :
  norm (vsub (point_on_circle center radius angle_degrees) center)
    = Rabs radius /\
  point_on_circle center radius (angle_degrees + 360)
    = point_on_circle center radius angle_degrees.
Proof.
  split.
  - rewrite point_on_circle_offset; apply norm_polar.
  - unfold point_on_circle; cbv zeta.
    rewrite radians_plus, radians_full_turn, cos_plus, sin_plus.
    rewrite cos_2PI, sin_2PI; apply vec_eq; ring.
Qed.

(** X2. The diameter drawn by [draw_diameter] has the center of the circle
    as its midpoint and length [2 * |radius|]. *)
Theorem draw_diameter_through_center (center : vec)
    (radius angle_degrees : R) :
  exists point1 point2 : vec,
    draw_diameter center radius angle_degrees = Plot [point1; point2] /\
    vdiv_lit (vadd point1 point2) 2 = center /\
    norm (vsub point2 point1) = 2 * Rabs radius.
Proof.
  do 2 eexists; split; [reflexivity|].
  unfold point_on_circle; cbv zeta.
  rewrite radians_plus, radians_half_turn, neg_cos, neg_sin.
  destruct center as [cx cy]; split.
  - unfold vdiv_lit, vadd; cbn [fst snd]; apply vec_eq; field.
  - replace (2 * Rabs radius) with (Rabs (-2 * radius)).
    + rewrite <- (norm_polar (-2 * radius) (radians angle_degrees)).
      unfold norm, vsub; cbn [fst snd]; f_equal; ring.
    + rewrite Rabs_mult; replace (Rabs (-2)) with 2; [reflexivity|].
      rewrite Rabs_left; lra.
Qed.

(** X3. The tangent drawn by [draw_tangent] is centred on the touch point,
    is perpendicular to the radius through it and has length [|length|]. *)
Theorem draw_tangent_perpendicular (center : vec)
    (radius angle_degrees length : R) :
  exists point1 point2 : vec,
    draw_tangent center radius angle_degrees length = Plot [point1; point2]
    /\ vdiv_lit (vadd point1 point2) 2
       = point_on_circle center radius angle_degrees
    /\ dot (vsub point2 point1)
           (vsub (point_on_circle center radius angle_degrees) center) = 0
    /\ norm (vsub point2 point1) = Rabs length.
Proof.
  do 2 eexists; split; [reflexivity|].
  rewrite radians_plus, radians_quarter_turn, cos_plus, sin_plus.
  rewrite cos_PI2, sin_PI2.
  unfold point_on_circle; cbv zeta.
  set (k := cos (radians angle_degrees)); set (s := sin (radians angle_degrees)).
  destruct center as [cx cy]; repeat split.
  - unfold vdiv_lit, vadd, vsub, vscale; cbn [fst snd]; apply vec_eq; field.
  - unfold dot, vadd, vsub, vscale; cbn [fst snd]; ring.
  - apply norm_of_square; [apply Rabs_pos|].
    rewrite Rabs_square; unfold vadd, vsub, vscale; cbn [fst snd].
    transitivity (length * length * (k * k + s * s)); [field|].
    unfold k, s; rewrite sin_cos_unit; ring.
Qed.

(** X4. Whatever the direction argument and the reference point, the
    circle label placer moves the label along a unit vector: the label is
    drawn at distance [|distance|] from the given position, and the call
    never yields a non-finite position. *)
Theorem draw_label_unit_offset (position : vec) (text : string)
    (direction : direction_arg) (distance : R)
    (reference_point : option vec) :
  exists offset_dir label_pos : vec,
    label_offset_dir position direction reference_point = Ok offset_dir /\
    norm offset_dir = 1 /\
    draw_label position text direction distance reference_point
      = Ok [Text label_pos text] /\
    norm (vsub label_pos position) = Rabs distance.
Proof.
  assert (Hunit : forall x y : R, x * x + y * y = 1 * 1 -> norm (x, y) = 1).
  { intros x y H; apply norm_of_square; [lra | exact H]. }
  assert (Hdir : exists offset_dir : vec,
            label_offset_dir position direction reference_point
              = Ok offset_dir /\ norm offset_dir = 1).
  { unfold label_offset_dir.
    destruct (is_str direction "auto") eqn:Hauto, reference_point as [ref|].
    1: { destruct (gtb (norm (vsub position ref)) 1e-10) eqn:Hcmp.
      - apply gtb_true in Hcmp.
        rewrite vdiv_ok by lra; eexists; split; [reflexivity|].
        apply Hunit; cbn [fst snd].
        pose proof (norm_sqr (vsub position ref)) as Hs.
        set (L := norm (vsub position ref)) in *.
        transitivity (((vsub position ref).1 * (vsub position ref).1
                       + (vsub position ref).2 * (vsub position ref).2)
                      / (L * L)); [field; lra|].
        rewrite <- Hs; field; lra.
      - eexists; split; [reflexivity|]; apply Hunit; ring. }
    all: destruct (is_str direction "above");
      [eexists; split; [reflexivity|]; apply Hunit; ring|].
    all: destruct (is_str direction "below");
      [eexists; split; [reflexivity|]; apply Hunit; ring|].
    all: destruct (is_str direction "left");
      [eexists; split; [reflexivity|]; apply Hunit; ring|].
    all: destruct (is_str direction "right");
      [eexists; split; [reflexivity|]; apply Hunit; ring|].
    all: destruct direction as [s | angle];
      (eexists; split; [reflexivity|]; apply Hunit);
      first [ring | rewrite sin_cos_unit; ring]. }
  destruct Hdir as (offset_dir & Hoff & Hnorm).
  exists offset_dir, (vadd position (vscale distance offset_dir)).
  split; [exact Hoff|]; split; [exact Hnorm|]; split.
  - unfold draw_label; rewrite Hoff; reflexivity.
  - apply norm_of_square; [apply Rabs_pos|].
    rewrite Rabs_square; pose proof (norm_sqr offset_dir) as Hs.
    rewrite Hnorm in Hs.
    unfold vsub, vadd, vscale; cbn [fst snd].
    transitivity (distance * distance
                  * (offset_dir.1 * offset_dir.1 + offset_dir.2 * offset_dir.2));
      [ring | rewrite <- Hs; ring].
Qed.

End CirclePoints.

(** ** circle_utils: chord, arc, sector and segment measures *)

Section CircleMeasures.
Import circle_utils.
Local Open Scope R_scope.

Lemma minor_sweep_range (angle1 angle2 : R) :
  Rabs (angle2 - angle1) <= 360 -> 0 <= minor_sweep angle1 angle2 <= 180.
Proof.
  intros H; pose proof (Rabs_pos (angle2 - angle1)) as Hpos.
  unfold minor_sweep.
  destruct (gtb (Rabs (angle2 - angle1)) 180) eqn:Hcmp.
  - apply gtb_true in Hcmp; lra.
  - apply gtb_false in Hcmp; lra.
Qed.

Lemma get_arc_length_sweep (radius angle1 angle2 : R) :
  get_arc_length radius angle1 angle2 =
  radius * radians (minor_sweep angle1 angle2).
Proof.
  unfold get_arc_length, minor_sweep; cbv zeta.
  now destruct (gtb (Rabs (angle2 - angle1)) 180).
Qed.

Lemma get_segment_area_sweep (radius angle1 angle2 : R) :
  get_segment_area radius angle1 angle2 =
  radius * radius / 2
  * (radians (minor_sweep angle1 angle2)
     - sin (radians (minor_sweep angle1 angle2))).
Proof.
  unfold get_segment_area, minor_sweep; cbv zeta.
  replace 0.5 with (/ 2) by lra.
  destruct (gtb (Rabs (angle2 - angle1)) 180); field.
Qed.

Lemma get_chord_length_sweep (radius angle1 angle2 : R) :
  get_chord_length radius angle1 angle2 =
  2 * radius * sin (radians (minor_sweep angle1 angle2 / 2)).
Proof.
  unfold get_chord_length, minor_sweep; cbv zeta.
  now destruct (gtb (Rabs (angle2 - angle1)) 180).
Qed.

(** X5. A chord between two equal angles has length 0, and a chord between
    two angles 180 degrees apart is a diameter of length [2 * radius]. *)
Theorem chord_length_zero_and_diameter (radius angle : R) :
  get_chord_length radius angle angle = 0 /\
  get_chord_length radius angle (angle + 180) = 2 * radius.
Proof.
  rewrite !get_chord_length_sweep; unfold minor_sweep.
  replace (angle - angle) with 0 by ring.
  replace (angle + 180 - angle) with 180 by ring.
  rewrite Rabs_R0, (Rabs_right 180) by lra.
  assert (H0 : gtb 0 180 = false) by (apply gtb_false; lra).
  assert (H1 : gtb 180 180 = false) by (apply gtb_false; lra).
  rewrite H0, H1; split.
  - replace (radians (0 / 2)) with 0 by (unfold radians; field).
    rewrite sin_0; ring.
  - replace (radians (180 / 2)) with (PI / 2) by (unfold radians; field).
    rewrite sin_PI2; ring.
Qed.

(** X6. For a non-negative radius and two angles at most 360 degrees
    apart, [get_chord_length] is the distance between the two points that
    [point_on_circle] returns for these angles. *)
Theorem chord_length_is_distance (center : vec)
    (radius angle1 angle2 : R)
    (Hradius : 0 <= radius) (Hturn : Rabs (angle2 - angle1) <= 360) :
  get_chord_length radius angle1 angle2 =
  norm (vsub (point_on_circle center radius angle2)
             (point_on_circle center radius angle1)).
Proof.
  symmetry; rewrite get_chord_length_sweep.
  pose proof (Rabs_pos (angle2 - angle1)) as Hpos.
  pose proof PI_RGT_0 as Hpi.
  set (h := radians (Rabs (angle2 - angle1) / 2)).
  assert (Hh : 0 <= h <= PI).
  { unfold h, radians; split.
    - apply Rmult_le_pos; [apply Rmult_le_pos|]; lra.
    - apply (Rmult_le_reg_r (180 / PI)).
      + apply Rdiv_lt_0_compat; lra.
      + replace (Rabs (angle2 - angle1) / 2 * PI / 180 * (180 / PI))
          with (Rabs (angle2 - angle1) / 2) by (field; lra).
        replace (PI * (180 / PI)) with 180 by (field; lra).
        lra. }
  assert (Hsin : sin (radians (minor_sweep angle1 angle2 / 2)) = sin h).
  { unfold minor_sweep.
    destruct (gtb (Rabs (angle2 - angle1)) 180); [|reflexivity].
    replace (radians ((360 - Rabs (angle2 - angle1)) / 2)) with (PI - h)
      by (unfold h, radians; field).
    apply sin_PI_x. }
  rewrite Hsin.
  assert (Hcos : cos (2 * h)
                 = cos (radians angle2) * cos (radians angle1)
                   + sin (radians angle2) * sin (radians angle1)).
  { rewrite <- cos_minus; unfold h.
    destruct (Rcase_abs (angle2 - angle1)) as [Hneg | Hge].
    - rewrite (Rabs_left _ Hneg), <- cos_neg; f_equal.
      unfold radians; field.
    - rewrite (Rabs_right _ Hge); f_equal; unfold radians; field. }
  rewrite cos_2a_sin in Hcos.
  pose proof (sin_ge_0 h (proj1 Hh) (proj2 Hh)) as Hs.
  apply norm_of_square.
  - apply Rmult_le_pos; [lra | exact Hs].
  - unfold point_on_circle, vsub; cbn [fst snd].
    pose proof (sin_cos_unit (radians angle1)) as U1.
    pose proof (sin_cos_unit (radians angle2)) as U2.
    set (c1 := cos (radians angle1)) in *; set (s1 := sin (radians angle1)) in *.
    set (c2 := cos (radians angle2)) in *; set (s2 := sin (radians angle2)) in *.
    destruct center as [cx cy]; cbn [fst snd].
    transitivity (radius * radius
                  * ((c1 * c1 + s1 * s1) + (c2 * c2 + s2 * s2)
                     - 2 * (c2 * c1 + s2 * s1))); [ring|].
    rewrite U1, U2, <- Hcos; ring.
Qed.

(** The theorem for a quarter turn on the unit circle at the origin. *)
Lemma chord_length_is_distance_witness :
  get_chord_length 1 0 90 =
  norm (vsub (point_on_circle (0, 0) 1 90) (point_on_circle (0, 0) 1 0)).
Proof.
  apply (chord_length_is_distance (0, 0) 1 0 90); [lra|].
  rewrite Rabs_right; lra.
Defined.

(** X7. For a non-negative radius and two angles at most 360 degrees
    apart: the arc length lies between 0 and half the circumference, the
    sector area is half the radius times the arc length and at most half
    the disc, and the segment area lies between 0 and the sector area. *)
Theorem arc_sector_segment_bounds (radius angle1 angle2 : R)
    (Hradius : 0 <= radius) (Hturn : Rabs (angle2 - angle1) <= 360) :
  0 <= get_arc_length radius angle1 angle2 <= PI * radius /\
  get_sector_area radius angle1 angle2
    = radius * get_arc_length radius angle1 angle2 / 2 /\
  get_sector_area radius angle1 angle2 <= PI * radius ^ 2 / 2 /\
  0 <= get_segment_area radius angle1 angle2
    <= get_sector_area radius angle1 angle2.
Proof.
  rewrite get_arc_length_sweep, get_sector_area_sweep, get_segment_area_sweep.
  pose proof (minor_sweep_range angle1 angle2 Hturn) as Hsweep.
  pose proof PI_RGT_0 as Hpi.
  set (t := radians (minor_sweep angle1 angle2)).
  assert (Ht : 0 <= t <= PI).
  { unfold t, radians; split.
    - apply Rmult_le_pos; [apply Rmult_le_pos|]; lra.
    - apply (Rmult_le_reg_r (180 / PI)); [apply Rdiv_lt_0_compat; lra|].
      replace (minor_sweep angle1 angle2 * PI / 180 * (180 / PI))
        with (minor_sweep angle1 angle2) by (field; lra).
      replace (PI * (180 / PI)) with 180 by (field; lra); lra. }
  replace (radius * radius * PI * minor_sweep angle1 angle2 / 360)
    with (radius * radius / 2 * t) by (unfold t, radians; field).
  assert (Hsin : 0 <= sin t <= t).
  { split; [apply sin_ge_0; lra|].
    destruct (Req_dec t 0) as [-> | Hne]; [rewrite sin_0; lra|].
    left; apply sin_lt_x; lra. }
  assert (Hrr : 0 <= radius * radius / 2) by nra.
  repeat split; nra.
Qed.

(** The theorem for a quarter turn on the unit circle. *)
Lemma arc_sector_segment_bounds_witness :
  get_sector_area 1 0 90 = 1 * get_arc_length 1 0 90 / 2.
Proof.
  assert (Hturn : Rabs (90 - 0) <= 360) by (rewrite Rabs_right; lra).
  exact (proj1 (proj2
           (arc_sector_segment_bounds 1 0 90 ltac:(lra) Hturn))).
Defined.

(** X8. The sweep is not reduced modulo 360: for a positive radius the arc
    length and the sector area are negative exactly when the two angles
    are more than 360 degrees apart. *)
Theorem arc_and_sector_negative_beyond_full_turn (radius angle1 angle2 : R)
    (Hradius : 0 < radius) :
  (get_arc_length radius angle1 angle2 < 0
   <-> Rabs (angle2 - angle1) > 360) /\
  (get_sector_area radius angle1 angle2 < 0
   <-> Rabs (angle2 - angle1) > 360).
Proof.
  rewrite get_arc_length_sweep, get_sector_area_sweep.
  pose proof PI_RGT_0 as Hpi.
  pose proof (Rabs_pos (angle2 - angle1)) as Hpos.
  assert (Hsweep : minor_sweep angle1 angle2 < 0
                   <-> Rabs (angle2 - angle1) > 360).
  { unfold minor_sweep.
    destruct (gtb (Rabs (angle2 - angle1)) 180) eqn:Hcmp.
    - apply gtb_true in Hcmp; lra.
    - apply gtb_false in Hcmp; lra. }
  rewrite <- Hsweep; set (d := minor_sweep angle1 angle2).
  assert (Hk : 0 < radius * PI) by (apply Rmult_lt_0_compat; lra).
  assert (Hk2 : 0 < radius * radius * PI)
    by (apply Rmult_lt_0_compat; [nra | lra]).
  unfold radians.
  replace (radius * (d * PI / 180)) with (radius * PI * d / 180) by field.
  split; split; intros H; nra.
Qed.

(** The theorem on the unit circle for angles 0 and 400. *)
Lemma arc_and_sector_negative_beyond_full_turn_witness :
  get_arc_length 1 0 400 < 0.
Proof.
  apply (proj1 (arc_and_sector_negative_beyond_full_turn 1 0 400
                  ltac:(lra))).
  rewrite Rabs_right; lra.
Defined.

End CircleMeasures.

(** ** circle_utils: labels of arcs and lines *)

Section CircleLabels.
Import circle_utils.
Local Open Scope R_scope.

(** X9. For a radius above 1e-10, [draw_arc_label] puts the label on the
    circle of radius [radius + distance] around the same center, at the
    middle angle of the arc (the end angle being raised by 360 when it is
    below the start angle). *)
Theorem draw_arc_label_on_outer_circle (center : vec)
    (radius start_angle end_angle : R) (text : string) (distance : R)
    (Hradius : radius > 1e-10) :
  draw_arc_label center radius start_angle end_angle text distance =
  Ok [Text (point_on_circle center (radius + distance)
              ((start_angle
                + (if ltb end_angle start_angle then end_angle + 360
                   else end_angle)) / 2))
           text].
Proof.
  unfold draw_arc_label; cbv zeta.
  set (mid := (start_angle
               + (if ltb end_angle start_angle then end_angle + 360
                  else end_angle)) / 2).
  rewrite point_on_circle_offset, norm_polar, (Rabs_right radius) by lra.
  assert (Hcmp : gtb radius 1e-10 = true) by now apply gtb_true.
  rewrite Hcmp, vdiv_ok, bind_Ok by lra.
  do 3 f_equal; unfold point_on_circle, vadd, vscale; cbn [fst snd].
  apply vec_eq; field; lra.
Qed.

(** The theorem for an arc from 0 to 90 degrees of the unit circle. *)
Lemma draw_arc_label_on_outer_circle_witness :
  draw_arc_label (0, 0) 1 0 90 "s" 0.3 =
  Ok [Text (point_on_circle (0, 0) (1 + 0.3)
              ((0 + (if ltb 90 0 then 90 + 360 else 90)) / 2)) "s"].
Proof.
  apply (draw_arc_label_on_outer_circle (0, 0) 1 0 90 "s" 0.3); lra.
Defined.

(** X10. For two points more than 1e-10 apart and direction ['auto'],
    [draw_line_label] puts the label at distance [|distance|] from the
    point of the line chosen by [position], offset perpendicularly to the
    line. *)
Theorem draw_line_label_auto_perpendicular (point1 point2 : vec)
    (text : string) (position distance : R)
    (Hapart : norm (vsub point2 point1) > 1e-10) :
  exists label_pos : vec,
    draw_line_label point1 point2 text position (DStr "auto") distance
      = Ok [Text label_pos text] /\
    dot (vsub label_pos (vadd point1 (vscale position (vsub point2 point1))))
        (vsub point2 point1) = 0 /\
    norm (vsub label_pos (vadd point1 (vscale position (vsub point2 point1))))
      = Rabs distance.
Proof.
  unfold draw_line_label; cbv zeta.
  assert (Hperp : norm (- (vsub point2 point1).2, (vsub point2 point1).1)
                  = norm (vsub point2 point1)).
  { unfold norm; cbn [fst snd]; f_equal; ring. }
  rewrite Hperp.
  assert (Hcmp : gtb (norm (vsub point2 point1)) 1e-10 = true)
    by now apply gtb_true.
  rewrite Hcmp, vdiv_ok, bind_Ok by lra.
  change (is_str (DStr "auto") "auto") with true; cbv iota; cbn [fst snd].
  pose proof (norm_sqr (vsub point2 point1)) as HL.
  remember (vadd point1 (vscale position (vsub point2 point1))) as label_base.
  remember (norm (vsub point2 point1)) as L.
  remember (vsub point2 point1) as line_vec.
  clear Heqlabel_base HeqL Heqline_vec Hperp Hcmp.
  destruct line_vec as [lx ly], label_base as [bx b_y]; cbn [fst snd] in *.
  eexists; split; [reflexivity|]; split.
  - unfold dot, vsub, vadd, vscale; cbn [fst snd]; field; lra.
  - apply norm_of_square; [apply Rabs_pos|].
    rewrite Rabs_square; unfold vsub, vadd, vscale; cbn [fst snd].
    transitivity (distance * distance * ((lx * lx + ly * ly) / (L * L)));
      [field; lra | rewrite <- HL; field; lra].
Qed.

(** The theorem for a label in the middle of a horizontal unit segment. *)
Lemma draw_line_label_auto_perpendicular_witness :
  exists label_pos : vec,
    draw_line_label (0, 0) (1, 0) "r" 0.5 (DStr "auto") 0.3
      = Ok [Text label_pos "r"] /\
    dot (vsub label_pos (vadd (0, 0) (vscale 0.5 (vsub (1, 0) (0, 0)))))
        (vsub (1, 0) (0, 0)) = 0 /\
    norm (vsub label_pos (vadd (0, 0) (vscale 0.5 (vsub (1, 0) (0, 0)))))
      = Rabs 0.3.
Proof.
  apply (draw_line_label_auto_perpendicular (0, 0) (1, 0) "r" 0.5 0.3).
  replace (norm (vsub (1, 0) (0, 0))) with 1; [lra|].
  symmetry; apply norm_of_square; [lra|].
  unfold vsub; cbn [fst snd]; ring.
Defined.

End CircleLabels.

(** ** triangle_utils: angles from side lengths *)

Section TriangleAngles.
Import triangle_utils.
Local Open Scope R_scope.

(** [acos] already is constant outside [-1, 1]. *)
Lemma acos_clip (x : R) : acos (clip x (-1) 1) = acos x.
Proof.
  destruct (Rle_dec x (-1)) as [Hlo | Hlo];
    [|destruct (Rle_dec 1 x) as [Hhi | Hhi]].
  - unfold clip; rewrite Rmax_right, Rmin_left by lra.
    unfold acos; destruct (Rle_dec (-1) (-1)); [|lra].
    now destruct (Rle_dec x (-1)).
  - unfold clip; rewrite Rmax_left, Rmin_right by lra.
    rewrite acos_1; unfold acos.
    destruct (Rle_dec x (-1)); [lra|].
    now destruct (Rle_dec 1 x).
  - now rewrite clip_id by lra.
Qed.

Lemma norm_pos_neq (P Q : vec) : 0 < norm (vsub Q P) -> P <> Q.
Proof.
  intros Hpos ->.
  assert (Hz : norm (vsub Q Q) = 0).
  { apply norm_zero_iff; unfold vsub; apply vec_eq; ring. }
  lra.
Qed.

(** The angle at [V] between the directions to [P] and [N], by the law of
    cosines on the three distances. *)
Lemma angle_at_law_of_cosines (P V N : vec) :
  V <> P -> V <> N ->
  angle_at P V N =
  Ok (degrees (acos ((norm (vsub P V) * norm (vsub P V)
                      + norm (vsub N V) * norm (vsub N V)
                      - norm (vsub N P) * norm (vsub N P))
                     / (2 * (norm (vsub P V) * norm (vsub N V)))))).
Proof.
  intros HP HN.
  pose proof (norm_pos_distinct V P HP) as H1.
  pose proof (norm_pos_distinct V N HN) as H2.
  unfold angle_at; cbv zeta.
  rewrite np_div_ok, bind_Ok, acos_clip by nra.
  do 3 f_equal.
  assert (Hdot : dot (vsub P V) (vsub N V)
                 = (norm (vsub P V) * norm (vsub P V)
                    + norm (vsub N V) * norm (vsub N V)
                    - norm (vsub N P) * norm (vsub N P)) / 2).
  { rewrite !norm_sqr; unfold dot, vsub; cbn [fst snd]; field. }
  rewrite Hdot; field; split; lra.
Qed.

(** X11. In a triangle with three distinct vertices, [get_vertex_angle]
    agrees with the law of cosines applied to the lengths that
    [get_side_length] returns: with [c], [a], [b] the lengths of the sides
    0, 1, 2, the angle at vertex 0 is acos((b²+c²-a²)/(2bc)) in degrees,
    and likewise at the vertices 1 and 2. *)
Theorem vertex_angle_law_of_cosines (A B C : vec)
    (HAB : A <> B) (HBC : B <> C) (HCA : C <> A) :
  exists a b c : R,
    get_side_length [A; B; C] 0 = Ok c /\
    get_side_length [A; B; C] 1 = Ok a /\
    get_side_length [A; B; C] 2 = Ok b /\
    get_vertex_angle [A; B; C] 0
      = Ok (degrees (acos ((b * b + c * c - a * a) / (2 * (b * c))))) /\
    get_vertex_angle [A; B; C] 1
      = Ok (degrees (acos ((c * c + a * a - b * b) / (2 * (c * a))))) /\
    get_vertex_angle [A; B; C] 2
      = Ok (degrees (acos ((a * a + b * b - c * c) / (2 * (a * b))))).
Proof.
  exists (norm (vsub C B)), (norm (vsub A C)), (norm (vsub B A)).
  destruct (get_vertex_angle_vertices A B C) as (E0 & E1 & E2).
  rewrite E0, E1, E2; repeat split.
  - rewrite angle_at_law_of_cosines by congruence.
    now rewrite (norm_vsub_sym C A), (norm_vsub_sym B C).
  - rewrite angle_at_law_of_cosines by congruence.
    now rewrite (norm_vsub_sym A B), (norm_vsub_sym C A).
  - rewrite angle_at_law_of_cosines by congruence.
    now rewrite (norm_vsub_sym B C), (norm_vsub_sym A B).
Qed.

(** The theorem at the triangle (0,0), (4,0), (0,3). *)
Lemma vertex_angle_law_of_cosines_witness :
  exists a b c : R,
    get_side_length [(0, 0); (4, 0); (0, 3)] 0 = Ok c /\
    get_side_length [(0, 0); (4, 0); (0, 3)] 1 = Ok a /\
    get_side_length [(0, 0); (4, 0); (0, 3)] 2 = Ok b /\
    get_vertex_angle [(0, 0); (4, 0); (0, 3)] 0
      = Ok (degrees (acos ((b * b + c * c - a * a) / (2 * (b * c))))) /\
    get_vertex_angle [(0, 0); (4, 0); (0, 3)] 1
      = Ok (degrees (acos ((c * c + a * a - b * b) / (2 * (c * a))))) /\
    get_vertex_angle [(0, 0); (4, 0); (0, 3)] 2
      = Ok (degrees (acos ((a * a + b * b - c * c) / (2 * (a * b))))).
Proof.
  apply (vertex_angle_law_of_cosines (0, 0) (4, 0) (0, 3));
    intros H; injection H; lra.
Defined.

(** The angles of the triangle built from three sides. *)
Lemma sss_angles (a b c : R) (base_center : vec) (base_angle : R) :
  triangle_inequality a b c ->
  exists vertices : list vec,
    get_triangle_vertices_from_sss a b c base_center base_angle
      = Ok vertices /\
    get_side_length vertices 0 = Ok c /\
    get_side_length vertices 1 = Ok a /\
    get_side_length vertices 2 = Ok b /\
    get_vertex_angle vertices 0
      = Ok (degrees (acos ((b * b + c * c - a * a) / (2 * (b * c))))) /\
    get_vertex_angle vertices 1
      = Ok (degrees (acos ((c * c + a * a - b * b) / (2 * (c * a))))) /\
    get_vertex_angle vertices 2
      = Ok (degrees (acos ((a * a + b * b - c * c) / (2 * (a * b))))).
Proof.
  intros H; destruct (triangle_inequality_positive _ _ _ H) as (Ha & Hb & Hc).
  eexists; split; [now apply sss_vertices|].
  set (A := place base_center base_angle (- (c / 2), 0)).
  set (B := place base_center base_angle (c / 2, 0)).
  set (C := place base_center base_angle (apex a b c)).
  assert (Lc : norm (vsub B A) = c)
    by (unfold A, B; rewrite place_isometry; now apply sss_base_length).
  assert (La : norm (vsub C B) = a)
    by (unfold B, C; rewrite place_isometry; now apply sss_leg_a).
  assert (Lb : norm (vsub A C) = b)
    by (unfold A, C; rewrite place_isometry; now apply sss_leg_b).
  assert (HAB : A <> B) by (apply norm_pos_neq; lra).
  assert (HBC : B <> C) by (apply norm_pos_neq; lra).
  assert (HCA : C <> A) by (apply norm_pos_neq; lra).
  destruct (vertex_angle_law_of_cosines A B C HAB HBC HCA)
    as (a' & b' & c' & S0 & S1 & S2 & G0 & G1 & G2).
  assert (Ec : c' = c).
  { unfold get_side_length in S0; simpl in S0; injection S0 as <-; exact Lc. }
  assert (Ea : a' = a).
  { unfold get_side_length in S1; simpl in S1; injection S1 as <-; exact La. }
  assert (Eb : b' = b).
  { unfold get_side_length in S2; simpl in S2; injection S2 as <-; exact Lb. }
  subst a' b' c'; repeat split; assumption.
Qed.

(** X12. For sides satisfying the strict triangle inequality, measuring
    the constructed triangle gives back the sides and the law-of-cosines
    angles: the angle at A (vertex 0) is acos((b²+c²-a²)/(2bc)), at B it is
    acos((c²+a²-b²)/(2ca)), at C it is acos((a²+b²-c²)/(2ab)), in degrees. *)
Theorem sss_angles_round_trip (a b c : R) (base_center : vec)
    (base_angle : R) (Hineq : a + b > c /\ b + c > a /\ a + c > b) :
  exists vertices : list vec,
    get_triangle_vertices_from_sss a b c base_center base_angle
      = Ok vertices /\
    get_vertex_angle vertices 0
      = Ok (degrees (acos ((b * b + c * c - a * a) / (2 * (b * c))))) /\
    get_vertex_angle vertices 1
      = Ok (degrees (acos ((c * c + a * a - b * b) / (2 * (c * a))))) /\
    get_vertex_angle vertices 2
      = Ok (degrees (acos ((a * a + b * b - c * c) / (2 * (a * b))))).
Proof.
  destruct (sss_angles a b c base_center base_angle Hineq)
    as (vertices & Hv & _ & _ & _ & G0 & G1 & G2).
  exists vertices; repeat split; assumption.
Qed.

(** The theorem at the 3-4-5 triangle. *)
Lemma sss_angles_round_trip_witness :
  exists vertices : list vec,
    get_triangle_vertices_from_sss 3 4 5 (0, 0) 0 = Ok vertices /\
    get_vertex_angle vertices 0
      = Ok (degrees (acos ((4 * 4 + 5 * 5 - 3 * 3) / (2 * (4 * 5))))) /\
    get_vertex_angle vertices 1
      = Ok (degrees (acos ((5 * 5 + 3 * 3 - 4 * 4) / (2 * (5 * 3))))) /\
    get_vertex_angle vertices 2
      = Ok (degrees (acos ((3 * 3 + 4 * 4 - 5 * 5) / (2 * (3 * 4))))).
Proof.
  apply (sss_angles_round_trip 3 4 5 (0, 0) 0); lra.
Defined.

End TriangleAngles.

(** ** triangle_utils: preset triangles *)

Section TrianglePresets.
Import triangle_utils.
Local Open Scope R_scope.

Lemma sss_raises (a b c : R) (base_center : vec) (base_angle : R) :
  ~ triangle_inequality a b c ->
  get_triangle_vertices_from_sss a b c base_center base_angle =
  Raise (ValueError
           "Invalid triangle: side lengths violate triangle inequality").
Proof.
  intros Hn; unfold get_triangle_vertices_from_sss.
  destruct (gtb (a + b) c && gtb (b + c) a && gtb (a + c) b) eqn:Htest;
    [|reflexivity].
  now apply triangle_inequality_test in Htest.
Qed.

Lemma sss_error_iff (a b c : R) (base_center : vec) (base_angle : R) :
  is_error (get_triangle_vertices_from_sss a b c base_center base_angle)
  <-> ~ triangle_inequality a b c.
Proof.
  split.
  - intros [e He] H.
    rewrite (sss_vertices a b c base_center base_angle H) in He; discriminate.
  - intros Hn; eexists; now apply sss_raises.
Qed.

Lemma degrees_quarter_turn : degrees (PI / 2) = 90.
Proof. pose proof PI_RGT_0; unfold degrees; field; lra. Qed.

Lemma right_triangle_inequality (base height : R) :
  triangle_inequality height (sqrt (base ^ 2 + height ^ 2)) base
  <-> 0 < base /\ 0 < height.
Proof.
  assert (Hsq : 0 <= base ^ 2 + height ^ 2) by nra.
  pose proof (sqrt_pos (base ^ 2 + height ^ 2)) as Hpos.
  pose proof (sqrt_sqrt _ Hsq) as Hhyp.
  set (hyp := sqrt (base ^ 2 + height ^ 2)) in *.
  unfold triangle_inequality; split.
  - intros (H1 & H2 & H3).
    assert (Hprod : 0 < base * height) by nra.
    split; nra.
  - intros (Hb & Hh).
    assert (Hlt1 : height < hyp) by nra.
    assert (Hlt2 : base < hyp) by nra.
    repeat split; nra.
Qed.

(** X13. [get_right_triangle] raises exactly when the base or the height
    is not positive; otherwise it returns a triangle whose sides 0, 1, 2
    measure [base], [height] and the hypotenuse, with an angle of exactly
    90 degrees at vertex 1 (B), between the base and the height. *)
Theorem get_right_triangle_right_angle (base height : R) (center : vec) :
  (is_error (get_right_triangle base height center)
   <-> ~ (0 < base /\ 0 < height)) /\
  (0 < base /\ 0 < height ->
   exists vertices : list vec,
     get_right_triangle base height center = Ok vertices /\
     get_side_length vertices 0 = Ok base /\
     get_side_length vertices 1 = Ok height /\
     get_side_length vertices 2 = Ok (sqrt (base ^ 2 + height ^ 2)) /\
     get_vertex_angle vertices 1 = Ok 90).
Proof.
  unfold get_right_triangle; cbv zeta; split.
  - rewrite sss_error_iff, right_triangle_inequality; reflexivity.
  - intros Hpos; pose proof Hpos as Hineq.
    apply right_triangle_inequality in Hineq.
    destruct (sss_angles _ _ _ center 0 Hineq)
      as (vertices & Hv & S0 & S1 & S2 & _ & G1 & _).
    exists vertices; repeat (split; [assumption|]).
    rewrite G1; f_equal.
    assert (Hsq : 0 <= base ^ 2 + height ^ 2) by nra.
    pose proof (sqrt_sqrt _ Hsq) as Hhyp.
    replace ((base * base + height * height
              - sqrt (base ^ 2 + height ^ 2) * sqrt (base ^ 2 + height ^ 2))
             / (2 * (base * height))) with 0.
    + rewrite acos_0; apply degrees_quarter_turn.
    + rewrite Hhyp; field; lra.
Qed.

(** X14. [get_equilateral_triangle] raises exactly when the side length is
    not positive; otherwise all three sides measure the side length and
    all three angles are exactly 60 degrees. *)
Theorem get_equilateral_triangle_regular (side_length : R) (center : vec) :
  (is_error (get_equilateral_triangle side_length center)
   <-> side_length <= 0) /\
  (0 < side_length ->
   exists vertices : list vec,
     get_equilateral_triangle side_length center = Ok vertices /\
     (forall i : Z, (0 <= i < 3)%Z ->
        get_side_length vertices i = Ok side_length /\
        get_vertex_angle vertices i = Ok 60)).
Proof.
  assert (Hineq : triangle_inequality side_length side_length side_length
                  <-> 0 < side_length)
    by (unfold triangle_inequality; lra).
  unfold get_equilateral_triangle; split.
  - rewrite sss_error_iff, Hineq; lra.
  - intros Hpos; pose proof Hpos as Htri; apply Hineq in Htri.
    destruct (sss_angles _ _ _ center 0 Htri)
      as (vertices & Hv & S0 & S1 & S2 & G0 & G1 & G2).
    exists vertices; split; [assumption|].
    assert (Hsixty :
      degrees (acos ((side_length * side_length + side_length * side_length
                      - side_length * side_length)
                     / (2 * (side_length * side_length)))) = 60).
    { replace ((side_length * side_length + side_length * side_length
                - side_length * side_length)
               / (2 * (side_length * side_length))) with (1 / 2)
        by (field; lra).
      pose proof PI_RGT_0 as Hpi.
      rewrite <- cos_PI3, acos_cos by lra.
      unfold degrees; field; lra. }
    rewrite Hsixty in G0, G1, G2.
    intros i Hi.
    assert (Hcases : i = 0%Z \/ i = 1%Z \/ i = 2%Z) by lia.
    destruct Hcases as [-> | [-> | ->]]; split; assumption.
Qed.

(** X15. [get_isoceles_triangle] raises exactly unless
    [0 < base < 2 * leg]; otherwise side 0 measures [base], the sides 1
    and 2 both measure [leg], and the two base angles are equal. *)
Theorem get_isoceles_triangle_legs (base leg : R) (center : vec) :
  (is_error (get_isoceles_triangle base leg center)
   <-> ~ (0 < base < 2 * leg)) /\
  (0 < base < 2 * leg ->
   exists vertices : list vec,
     get_isoceles_triangle base leg center = Ok vertices /\
     get_side_length vertices 0 = Ok base /\
     get_side_length vertices 1 = Ok leg /\
     get_side_length vertices 2 = Ok leg /\
     get_vertex_angle vertices 0 = get_vertex_angle vertices 1).
Proof.
  assert (Hineq : triangle_inequality leg leg base <-> 0 < base < 2 * leg)
    by (unfold triangle_inequality; lra).
  unfold get_isoceles_triangle; split.
  - rewrite sss_error_iff, Hineq; reflexivity.
  - intros Hpos; pose proof Hpos as Htri; apply Hineq in Htri.
    destruct (sss_angles _ _ _ center 0 Htri)
      as (vertices & Hv & S0 & S1 & S2 & G0 & G1 & _).
    exists vertices; repeat (split; [assumption|]).
    rewrite G0, G1; do 3 f_equal; field; lra.
Qed.

End TrianglePresets.

(** ** triangle_utils: bisectors and labels *)

Section TriangleLabels.
Import triangle_utils.
Local Open Scope R_scope.

Lemma ltb_true (x y : R) : ltb x y = true <-> x < y.
Proof. unfold ltb; destruct (Rlt_dec x y); split; intros; congruence || auto. Qed.

Lemma ltb_false (x y : R) : ltb x y = false <-> y <= x.
Proof.
  unfold ltb; destruct (Rlt_dec x y); split; intros; try congruence; lra.
Qed.

Lemma unit_towards_norm (P V : vec) : V <> P -> norm (unit_towards P V) = 1.
Proof.
  intros Hne; pose proof (norm_pos_distinct V P Hne) as Hpos.
  unfold unit_towards; rewrite norm_vdiv_lit by exact Hpos; field; lra.
Qed.

Lemma get_angle_bisector_direction_vertices (A B C : vec) (i : Z) :
  (0 <= i < 3)%Z ->
  get_angle_bisector_direction [A; B; C] i =
  let '(P, V, N) := triangle_neighbours A B C i in bisector_at P V N.
Proof.
  intros Hi.
  assert (Hcases : i = 0%Z \/ i = 1%Z \/ i = 2%Z) by lia.
  destruct Hcases as [-> | [-> | ->]]; reflexivity.
Qed.

Lemma bisector_at_spec (P V N : vec) :
  V <> P -> V <> N ->
  exists b : vec,
    bisector_at P V N = Ok b /\
    norm b = 1 /\
    (1e-10 <= norm (vadd (unit_towards P V) (unit_towards N V)) ->
     dot b (unit_towards P V) = dot b (unit_towards N V) /\
     0 < dot b (unit_towards P V)) /\
    (norm (vadd (unit_towards P V) (unit_towards N V)) < 1e-10 ->
     b = (- (unit_towards P V).2, (unit_towards P V).1)).
Proof.
  intros HP HN.
  pose proof (norm_pos_distinct V P HP) as H1.
  pose proof (norm_pos_distinct V N HN) as H2.
  pose proof (unit_towards_norm P V HP) as U1.
  pose proof (unit_towards_norm N V HN) as U2.
  unfold bisector_at; rewrite !vdiv_ok, !bind_Ok by lra; cbv zeta.
  fold (vdiv_lit (vsub P V) (norm (vsub P V))).
  fold (vdiv_lit (vsub N V) (norm (vsub N V))).
  fold (unit_towards P V); fold (unit_towards N V).
  pose proof (norm_sqr (unit_towards P V)) as S1; rewrite U1 in S1.
  pose proof (norm_sqr (unit_towards N V)) as S2; rewrite U2 in S2.
  remember (unit_towards P V) as u1; remember (unit_towards N V) as u2.
  clear Hequ1 Hequ2 U1 U2.
  destruct u1 as [x1 y1], u2 as [x2 y2]; cbn [fst snd] in *.
  pose proof (norm_sqr (vadd (x1, y1) (x2, y2))) as SL.
  pose proof (norm_nonneg (vadd (x1, y1) (x2, y2))) as HL.
  remember (norm (vadd (x1, y1) (x2, y2))) as L.
  unfold vadd in SL |- *; cbn [fst snd] in *.
  destruct (ltb L 1e-10) eqn:Hcmp.
  - apply ltb_true in Hcmp.
    eexists; split; [reflexivity|]; split; [|split].
    + apply norm_of_square; [lra|]; cbn [fst snd]; lra.
    + intros Hge; lra.
    + reflexivity.
  - apply ltb_false in Hcmp.
    rewrite vdiv_ok by lra; cbn [fst snd].
    eexists; split; [reflexivity|]; split; [|split].
    + apply norm_of_square; [lra|]; cbn [fst snd].
      transitivity (((x1 + x2) * (x1 + x2) + (y1 + y2) * (y1 + y2))
                    / (L * L)); [field; lra | rewrite <- SL; field; lra].
    + intros _; unfold dot; cbn [fst snd].
      assert (Hd : (x1 + x2) / L * x1 + (y1 + y2) / L * y1
                   = (1 + (x1 * x2 + y1 * y2)) / L)
        by (transitivity ((x1 * x1 + y1 * y1 + (x1 * x2 + y1 * y2)) / L);
            [field; lra | rewrite <- S1; field; lra]).
      assert (Hd' : (x1 + x2) / L * x2 + (y1 + y2) / L * y2
                    = (1 + (x1 * x2 + y1 * y2)) / L)
        by (transitivity ((x2 * x2 + y2 * y2 + (x1 * x2 + y1 * y2)) / L);
            [field; lra | rewrite <- S2; field; lra]).
      rewrite Hd, Hd'; split; [reflexivity|].
      apply Rdiv_lt_0_compat; [|lra].
      assert (HLL : 0 < L * L) by nra.
      nra.
    + intros Hlt; lra.
Qed.

(** X16. At a vertex of a triangle that differs from both of its
    neighbours, [get_angle_bisector_direction] returns a vector of length 1.
    When the sum of the two unit vectors towards the neighbours has length
    at least 1e-10, the result makes the same, positive, dot product with
    both of them (it bisects the angle); below 1e-10 the result is the
    first unit vector turned by 90 degrees. *)
Theorem angle_bisector_direction_unit (A B C : vec) (vertex_index : Z)
    (Hindex : (0 <= vertex_index < 3)%Z)
    (HAB : A <> B) (HBC : B <> C) (HCA : C <> A) :
  exists P V N b : vec,
    triangle_neighbours A B C vertex_index = (P, V, N) /\
    get_angle_bisector_direction [A; B; C] vertex_index = Ok b /\
    norm b = 1 /\
    (1e-10 <= norm (vadd (unit_towards P V) (unit_towards N V)) ->
     dot b (unit_towards P V) = dot b (unit_towards N V) /\
     0 < dot b (unit_towards P V)) /\
    (norm (vadd (unit_towards P V) (unit_towards N V)) < 1e-10 ->
     b = (- (unit_towards P V).2, (unit_towards P V).1)).
Proof.
  rewrite get_angle_bisector_direction_vertices by exact Hindex.
  assert (Hcases : vertex_index = 0%Z \/ vertex_index = 1%Z
                   \/ vertex_index = 2%Z) by lia.
  destruct Hcases as [-> | [-> | ->]]; cbn.
  - destruct (bisector_at_spec C A B) as (b & Hb); [congruence..|].
    exists C, A, B, b; split; [reflexivity | exact Hb].
  - destruct (bisector_at_spec A B C) as (b & Hb); [congruence..|].
    exists A, B, C, b; split; [reflexivity | exact Hb].
  - destruct (bisector_at_spec B C A) as (b & Hb); [congruence..|].
    exists B, C, A, b; split; [reflexivity | exact Hb].
Qed.

(** The theorem at the right-angled corner of (0,0), (4,0), (0,3). *)
Lemma angle_bisector_direction_unit_witness :
  exists P V N b : vec,
    triangle_neighbours (0, 0) (4, 0) (0, 3) 0 = (P, V, N) /\
    get_angle_bisector_direction [(0, 0); (4, 0); (0, 3)] 0 = Ok b /\
    norm b = 1 /\
    (1e-10 <= norm (vadd (unit_towards P V) (unit_towards N V)) ->
     dot b (unit_towards P V) = dot b (unit_towards N V) /\
     0 < dot b (unit_towards P V)) /\
    (norm (vadd (unit_towards P V) (unit_towards N V)) < 1e-10 ->
     b = (- (unit_towards P V).2, (unit_towards P V).1)).
Proof.
  apply (angle_bisector_direction_unit (0, 0) (4, 0) (0, 3) 0);
    [lia | intros H; injection H; lra..].
Defined.

End TriangleLabels.

(** ** triangle_utils: vertex labels and unknown directions *)

Section TriangleVertexLabels.
Import triangle_utils.
Local Open Scope R_scope.

Lemma np_mean_triangle (A B C : vec) :
  np_mean [A; B; C] = Ok (triangle_centroid A B C).
Proof.
  unfold np_mean; simpl foldl; simpl length.
  replace (INR 3) with 3 by (simpl; lra).
  rewrite vdiv_ok by lra; f_equal.
  unfold triangle_centroid, vdiv_lit, vadd; cbn [fst snd].
  apply vec_eq; field.
Qed.

Lemma np_div_zero (x : R) : np_div x 0 = NotFinite.
Proof.
  unfold np_div; assert (H : eqb 0 0 = true) by now apply eqb_true.
  now rewrite H.
Qed.

Lemma triangle_vertex_in_range (A B C : vec) (i : Z) :
  (0 <= i < 3)%Z ->
  arr_get [A; B; C] i = Ok (triangle_neighbours A B C i).1.2.
Proof.
  intros Hi.
  assert (Hcases : i = 0%Z \/ i = 1%Z \/ i = 2%Z) by lia.
  destruct Hcases as [-> | [-> | ->]]; reflexivity.
Qed.

Lemma noncollinear_off_centroid (A B C : vec) (i : Z) :
  noncollinear A B C ->
  (triangle_neighbours A B C i).1.2 <> triangle_centroid A B C.
Proof.
  unfold noncollinear, cross, triangle_centroid, triangle_neighbours.
  unfold vdiv_lit, vadd, vsub.
  destruct A as [a1 a2], B as [b1 b2], C as [c1 c2]; cbn [fst snd].
  intros Hnc.
  destruct (i =? 0)%Z; [|destruct (i =? 1)%Z]; cbn [fst snd];
    intros Heq; injection Heq as H1 H2; apply Hnc.
  - replace c1 with (2 * a1 - b1) by lra.
    replace c2 with (2 * a2 - b2) by lra; ring.
  - replace c1 with (2 * b1 - a1) by lra.
    replace c2 with (2 * b2 - a2) by lra; ring.
  - replace b1 with (2 * c1 - a1) by lra.
    replace b2 with (2 * c2 - a2) by lra; ring.
Qed.

(** X17. With direction ['auto'], the triangle vertex label is moved away
    from the centroid along a unit vector: the text lands at distance
    [|distance|] from the vertex, on the line through centroid and vertex.
    There is no fallback for a vertex that coincides with the centroid (the
    result is then not finite), which cannot happen when the three vertices
    are not on one line. *)
Theorem triangle_vertex_label_away_from_centroid (A B C : vec)
    (vertex_index : Z) (label_text : string) (distance : R)
    (Hindex : (0 <= vertex_index < 3)%Z) :
  exists vertex : vec,
    arr_get [A; B; C] vertex_index = Ok vertex /\
    (noncollinear A B C -> vertex <> triangle_centroid A B C) /\
    (vertex = triangle_centroid A B C ->
     draw_vertex_label [A; B; C] vertex_index label_text distance "auto"
       = NotFinite) /\
    (vertex <> triangle_centroid A B C ->
     exists label_pos : vec,
       draw_vertex_label [A; B; C] vertex_index label_text distance "auto"
         = Ok [Text label_pos label_text] /\
       norm (vsub label_pos vertex) = Rabs distance /\
       vsub label_pos vertex =
         vscale (distance / norm (vsub vertex (triangle_centroid A B C)))
                (vsub vertex (triangle_centroid A B C))).
Proof.
  exists (triangle_neighbours A B C vertex_index).1.2.
  pose proof (triangle_vertex_in_range A B C vertex_index Hindex) as Hget.
  split; [exact Hget|]; split; [apply noncollinear_off_centroid|].
  unfold draw_vertex_label; rewrite Hget, bind_Ok.
  change (String.eqb "auto" "auto") with true; cbv iota.
  unfold away_from_centroid; rewrite np_mean_triangle, bind_Ok.
  set (V := (triangle_neighbours A B C vertex_index).1.2).
  set (G := triangle_centroid A B C).
  split.
  - intros ->.
    assert (Hz : norm (vsub G G) = 0).
    { apply norm_zero_iff; unfold vsub; apply vec_eq; ring. }
    unfold vdiv; rewrite Hz, !np_div_zero; reflexivity.
  - intros Hne.
    pose proof (norm_pos_distinct G V (not_eq_sym Hne)) as Hpos.
    rewrite vdiv_ok, bind_Ok by lra.
    eexists; split; [reflexivity|].
    pose proof (norm_sqr (vsub V G)) as HL.
    remember (norm (vsub V G)) as L; remember (vsub V G) as w.
    clear HeqL Heqw; destruct w as [wx wy], V as [vx vy]; cbn [fst snd] in *.
    split.
    + apply norm_of_square; [apply Rabs_pos|].
      rewrite Rabs_square; unfold vsub, vadd, vscale; cbn [fst snd].
      transitivity (distance * distance * ((wx * wx + wy * wy) / (L * L)));
        [field; lra | rewrite <- HL; field; lra].
    + unfold vsub, vadd, vscale; cbn [fst snd]; apply vec_eq; field; lra.
Qed.

(** The theorem at vertex 0 of the triangle (0,0), (4,0), (0,3). *)
Lemma triangle_vertex_label_away_from_centroid_witness :
  exists vertex : vec,
    arr_get [(0, 0); (4, 0); (0, 3)] 0 = Ok vertex /\
    (noncollinear (0, 0) (4, 0) (0, 3) ->
     vertex <> triangle_centroid (0, 0) (4, 0) (0, 3)) /\
    (vertex = triangle_centroid (0, 0) (4, 0) (0, 3) ->
     draw_vertex_label [(0, 0); (4, 0); (0, 3)] 0 "A" 0.4 "auto"
       = NotFinite) /\
    (vertex <> triangle_centroid (0, 0) (4, 0) (0, 3) ->
     exists label_pos : vec,
       draw_vertex_label [(0, 0); (4, 0); (0, 3)] 0 "A" 0.4 "auto"
         = Ok [Text label_pos "A"] /\
       norm (vsub label_pos vertex) = Rabs 0.4 /\
       vsub label_pos vertex =
         vscale (0.4 / norm (vsub vertex
                               (triangle_centroid (0, 0) (4, 0) (0, 3))))
                (vsub vertex (triangle_centroid (0, 0) (4, 0) (0, 3)))).
Proof.
  apply (triangle_vertex_label_away_from_centroid
           (0, 0) (4, 0) (0, 3) 0 "A" 0.4); lia.
Defined.

(** X18. A direction string that is neither ['auto'] nor a key of
    [DIRECTIONS] is treated differently by the three triangle label
    placers: the side label is put on the side itself (zero offset), the
    vertex label [distance] straight above the vertex, and the angle label
    where ['auto'] would put it. *)
Theorem triangle_labels_unknown_direction (A B C : vec) (index : Z)
    (label_text direction : string) (position distance : R)
    (Hindex : (0 <= index < 3)%Z)
    (Hauto : direction <> "auto")
    (Hunknown : DIRECTIONS !! direction = None) :
  exists P V N : vec,
    triangle_neighbours A B C index = (P, V, N) /\
    draw_side_label [A; B; C] index label_text position direction distance
      = Ok [Text (vadd V (vscale position (vsub N V))) label_text] /\
    draw_vertex_label [A; B; C] index label_text distance direction
      = Ok [Text (vadd V (vscale distance (0, 1))) label_text] /\
    draw_angle_label [A; B; C] index label_text distance direction
      = draw_angle_label [A; B; C] index label_text distance "auto".
Proof.
  apply String.eqb_neq in Hauto.
  unfold draw_side_label, draw_vertex_label, draw_angle_label.
  rewrite Hauto, Hunknown.
  assert (Hcases : index = 0%Z \/ index = 1%Z \/ index = 2%Z) by lia.
  destruct Hcases as [-> | [-> | ->]];
    do 3 eexists; (split; [reflexivity|]); (split; [|split; reflexivity]);
    simpl; do 3 f_equal; unfold vadd, vscale, vsub; cbn [fst snd];
    apply vec_eq; ring.
Qed.

(** The theorem for the direction string ["sideways"]. *)
Lemma triangle_labels_unknown_direction_witness :
  exists P V N : vec,
    triangle_neighbours (0, 0) (4, 0) (0, 3) 0 = (P, V, N) /\
    draw_side_label [(0, 0); (4, 0); (0, 3)] 0 "c" 0.5 "sideways" 0.3
      = Ok [Text (vadd V (vscale 0.5 (vsub N V))) "c"] /\
    draw_vertex_label [(0, 0); (4, 0); (0, 3)] 0 "c" 0.3 "sideways"
      = Ok [Text (vadd V (vscale 0.3 (0, 1))) "c"] /\
    draw_angle_label [(0, 0); (4, 0); (0, 3)] 0 "c" 0.3 "sideways"
      = draw_angle_label [(0, 0); (4, 0); (0, 3)] 0 "c" 0.3 "auto".
Proof.
  apply (triangle_labels_unknown_direction
           (0, 0) (4, 0) (0, 3) 0 "c" "sideways" 0.5 0.3);
    [lia | discriminate | reflexivity].
Defined.

End TriangleVertexLabels.

(** ** quadrilateral_utils: rotations *)

Section QuadrilateralRotations.
Import quadrilateral_utils.
Local Open Scope R_scope.

Lemma rotate_norm (theta : R) (v : vec) : norm (rotate theta v) = norm v.
Proof.
  apply norm_of_square; [apply norm_nonneg|].
  rewrite norm_sqr; pose proof (sin_cos_unit theta) as Hu.
  destruct v as [x y]; unfold rotate; cbn [fst snd].
  transitivity ((cos theta * cos theta + sin theta * sin theta)
                * (x * x + y * y)); [ring | rewrite Hu; ring].
Qed.

Lemma rotate_dot (theta : R) (u v : vec) :
  dot (rotate theta u) (rotate theta v) = dot u v.
Proof.
  pose proof (sin_cos_unit theta) as Hu.
  destruct u as [x1 y1], v as [x2 y2]; unfold rotate, dot; cbn [fst snd].
  transitivity ((cos theta * cos theta + sin theta * sin theta)
                * (x1 * x2 + y1 * y2)); [ring | rewrite Hu; ring].
Qed.

Lemma rotate_cross (theta : R) (u v : vec) :
  cross (rotate theta u) (rotate theta v) = cross u v.
Proof.
  pose proof (sin_cos_unit theta) as Hu.
  destruct u as [x1 y1], v as [x2 y2]; unfold rotate, cross; cbn [fst snd].
  transitivity ((cos theta * cos theta + sin theta * sin theta)
                * (x1 * y2 - y1 * x2)); [ring | rewrite Hu; ring].
Qed.

Lemma rotate_plus (a b : R) (v : vec) :
  rotate b (rotate a v) = rotate (a + b) v.
Proof.
  destruct v as [x y]; unfold rotate; cbn [fst snd].
  rewrite cos_plus, sin_plus; apply vec_eq; ring.
Qed.

Lemma rotate_zero (v : vec) : rotate 0 v = v.
Proof.
  destruct v as [x y]; unfold rotate; cbn [fst snd].
  rewrite cos_0, sin_0; apply vec_eq; ring.
Qed.

Lemma rotate_full_turn (v : vec) : rotate (2 * PI) v = v.
Proof.
  destruct v as [x y]; unfold rotate; cbn [fst snd].
  rewrite cos_2PI, sin_2PI; apply vec_eq; ring.
Qed.

Lemma vsub_vadd_cancel (x c : vec) : vsub (vadd x c) c = x.
Proof. destruct x, c; unfold vsub, vadd; cbn [fst snd]; apply vec_eq; ring. Qed.

Lemma vadd_vsub_cancel (x c : vec) : vadd (vsub x c) c = x.
Proof. destruct x, c; unfold vsub, vadd; cbn [fst snd]; apply vec_eq; ring. Qed.

(** X19. [rotate_points] about one center composes additively in the
    angle, a rotation by 360 degrees gives the points back, the center is a
    fixed point, and distances between points are kept. *)
Theorem rotate_points_compose (points : list vec) (angle1 angle2 : R)
    (center : vec) :
  rotate_points (rotate_points points angle1 center) angle2 center
    = rotate_points points (angle1 + angle2) center /\
  rotate_points points 360 center = points /\
  rotate_points [center] angle1 center = [center] /\
  (forall p q : vec, exists p' q' : vec,
     rotate_points [p; q] angle1 center = [p'; q'] /\
     norm (vsub q' p') = norm (vsub q p)).
Proof.
  unfold rotate_points; repeat split.
  - rewrite List.map_map; apply List.map_ext; intros p.
    now rewrite vsub_vadd_cancel, rotate_plus, radians_plus.
  - rewrite <- (List.map_id points) at 2; apply List.map_ext; intros p.
    now rewrite radians_full_turn, rotate_full_turn, vadd_vsub_cancel.
  - cbn [map]; do 2 f_equal.
    destruct center as [cx cy]; unfold vadd, vsub, rotate; cbn [fst snd].
    apply vec_eq; ring.
  - intros p q; do 2 eexists; split; [reflexivity|].
    rewrite <- (rotate_norm (radians angle1) (vsub q p)).
    destruct p as [px py], q as [qx qy], center as [cx cy].
    unfold norm, vsub, vadd, rotate; cbn [fst snd]; f_equal; ring.
Qed.

End QuadrilateralRotations.

(** ** quadrilateral_utils: the shapes of the presets *)

Section QuadrilateralShapes.
Import quadrilateral_utils.
Local Open Scope R_scope.

Lemma motion_diff (theta : R) (t p q : vec) :
  vsub (motion theta t q) (motion theta t p) = rotate theta (vsub q p).
Proof.
  destruct p, q, t; unfold motion, vsub, vadd, rotate; cbn [fst snd].
  apply vec_eq; ring.
Qed.

Lemma motion_norm (theta : R) (t p q : vec) :
  norm (vsub (motion theta t q) (motion theta t p)) = norm (vsub q p).
Proof. now rewrite motion_diff, rotate_norm. Qed.

Lemma motion_dot (theta : R) (t p q r s : vec) :
  dot (vsub (motion theta t q) (motion theta t p))
      (vsub (motion theta t s) (motion theta t r))
  = dot (vsub q p) (vsub s r).
Proof. now rewrite !motion_diff, rotate_dot. Qed.

Lemma motion_cross (theta : R) (t p q r s : vec) :
  cross (vsub (motion theta t q) (motion theta t p))
        (vsub (motion theta t s) (motion theta t r))
  = cross (vsub q p) (vsub s r).
Proof. now rewrite !motion_diff, rotate_cross. Qed.

(** Every preset is a base figure moved rigidly. *)
Ltac moved_base :=
  unfold motion, rotate_points, vadd, vsub, rotate; cbn [map fst snd];
  rewrite ?cos_0, ?sin_0;
  repeat (apply (f_equal2 cons); [apply vec_eq; field|]); reflexivity.

Lemma get_rectangle_moved (width height : R) (center : vec) (rotation : R) :
  exists (theta : R) (t : vec),
    get_rectangle width height center rotation =
    map (motion theta t)
        [ (- (width / 2), - (height / 2)); (width / 2, - (height / 2));
          (width / 2, height / 2); (- (width / 2), height / 2) ].
Proof.
  unfold get_rectangle; cbv zeta; destruct center as [cx cy].
  destruct (negb (eqb rotation 0)).
  - exists (radians rotation), (cx, cy); moved_base.
  - exists 0, (cx, cy); moved_base.
Qed.

Lemma get_parallelogram_moved (base side angle_deg : R) (center : vec)
    (rotation : R) :
  exists (theta : R) (t : vec),
    get_parallelogram base side angle_deg center rotation =
    Ok (map (motion theta t)
          [ (0, 0); (base, 0);
            (base + side * cos (radians angle_deg),
             side * sin (radians angle_deg));
            (side * cos (radians angle_deg),
             side * sin (radians angle_deg)) ]).
Proof.
  unfold get_parallelogram; cbv zeta; rewrite get_centroid_4, bind_Ok.
  cbn [fst snd]; destruct center as [cx cy].
  set (gx := (0 + base + (base + side * cos (radians angle_deg))
              + side * cos (radians angle_deg)) / 4).
  set (gy := (0 + 0 + side * sin (radians angle_deg)
              + side * sin (radians angle_deg)) / 4).
  destruct (negb (eqb rotation 0)).
  - exists (radians rotation),
      (vsub (cx, cy) (rotate (radians rotation) (gx, gy))).
    f_equal; moved_base.
  - exists 0, (vsub (cx, cy) (gx, gy)); f_equal; moved_base.
Qed.

Lemma get_trapezium_moved (parallel_top parallel_bottom height offset : R)
    (center : vec) (rotation : R) :
  exists (theta : R) (t : vec),
    get_trapezium parallel_top parallel_bottom height offset center rotation
    = Ok (map (motion theta t)
            [ (- (parallel_bottom / 2), 0); (parallel_bottom / 2, 0);
              (offset + parallel_top / 2, height);
              (offset - parallel_top / 2, height) ]).
Proof.
  unfold get_trapezium; cbv zeta; rewrite get_centroid_4, bind_Ok.
  cbn [fst snd]; destruct center as [cx cy].
  set (gx := (- (parallel_bottom / 2) + parallel_bottom / 2
              + (offset + parallel_top / 2) + (offset - parallel_top / 2))
             / 4).
  set (gy := (0 + 0 + height + height) / 4).
  destruct (negb (eqb rotation 0)).
  - exists (radians rotation),
      (vsub (cx, cy) (rotate (radians rotation) (gx, gy))).
    f_equal; moved_base.
  - exists 0, (vsub (cx, cy) (gx, gy)); f_equal; moved_base.
Qed.

Lemma get_kite_moved (d1 d2 split_ratio : R) (center : vec) (rotation : R) :
  exists (theta : R) (t : vec),
    get_kite d1 d2 split_ratio center rotation =
    map (motion theta t)
        [ (- (d1 / 2), 0); (0, - (d2 * split_ratio)); (d1 / 2, 0);
          (0, d2 * (1 - split_ratio)) ].
Proof.
  unfold get_kite; cbv zeta; destruct center as [cx cy].
  destruct (negb (eqb rotation 0)).
  - exists (radians rotation), (cx, cy); moved_base.
  - exists 0, (cx, cy); moved_base.
Qed.

End QuadrilateralShapes.
